(** * NovelAgent request orchestration: a shallow embedding of [generate.mjs]

    The development follows the multi-mode pipeline of [generate.mjs]
    (canvas selection, payload builders, mask synthesis, detection
    translation and response unwrapping).  JavaScript numbers are IEEE-754
    binary64 values and are embedded as Rocq's primitive floats, so every
    arithmetic step below rounds exactly as the program does. *)

From Stdlib Require Import Floats ZArith Uint63 Ascii String.
From stdpp Require Import base option list strings gmap.

#[local] Set Warnings "-inexact-float,-register-all".
#[local] Open Scope Z_scope.

(* ===================================================================== *)
(** * Part I.  The embedding                                              *)
(* ===================================================================== *)

(** ** JavaScript numbers and the built-ins the program calls *)

Module JS.

Definition number := float.

(** [isNaN(v)]: a missing (undefined) value coerces to NaN. *)
Definition isNaN (v : option number) : bool :=
  match v with
  | None => true
  | Some x => is_nan x
  end.

(** Numeric coercion of a destructured slot: [undefined] becomes NaN. *)
Definition ToNumber (v : option number) : number :=
  match v with
  | None => nan
  | Some x => x
  end.

(** [Number.isInteger]. *)
Definition isInteger (x : number) : bool :=
  match Prim2SF x with
  | S754_zero _ => true
  | S754_finite _ m e =>
      (0 <=? e) || (Z.land (Zpos m) (Z.ones (- e)) =? 0)
  | _ => false
  end.

(** Exact integer value of an integral number ([None] otherwise). *)
Definition to_Z (x : number) : option Z :=
  match Prim2SF x with
  | S754_zero _ => Some 0
  | S754_finite s m e =>
      if 0 <=? e then Some (cond_Zopp s (Zpos m) * 2 ^ e)
      else if Z.land (Zpos m) (Z.ones (- e)) =? 0
           then Some (Z.shiftr (cond_Zopp s (Zpos m)) (- e))
           else None
  | _ => None
  end.

(** The number denoting a (small) integer; exact below 2^53. *)
Definition of_Z (n : Z) : number :=
  let a := of_uint63 (Uint63.of_Z (Z.abs n)) in
  if n <? 0 then (- a)%float else a.

Definition Math_abs (x : number) : number := PrimFloat.abs x.

(** [Math.min] on two arguments: NaN is contagious and -0 is below +0. *)
Definition Math_min (a b : number) : number :=
  if is_nan a || is_nan b then nan
  else if (a <? b)%float then a
  else if (b <? a)%float then b
  else if get_sign a then a else b.

(** [Math.floor]: floats with a non-negative exponent are integral. *)
Definition Math_floor (x : number) : number :=
  match Prim2SF x with
  | S754_finite s m e =>
      if 0 <=? e then x
      else of_Z (Z.shiftr (cond_Zopp s (Zpos m)) (- e))
  | _ => x
  end.

(** [Math.round]: nearest integer, halves go towards +Infinity, and the
    sign of a zero result is the sign of the argument. *)
Definition Math_round (x : number) : number :=
  match Prim2SF x with
  | S754_finite s m e =>
      if 0 <=? e then x
      else
        let n := Z.shiftr (2 * cond_Zopp s (Zpos m) + 2 ^ (- e)) (- e + 1) in
        if n =? 0 then (if s then neg_zero else PrimFloat.zero) else of_Z n
  | _ => x
  end.

(** *** [Number(string)] *)

(** Strings hold the UTF-8 bytes of the program's text.  The white
    space that [trim] and [Number] strip is WhiteSpace and
    LineTerminator of the language: six characters of one byte (TAB, LF,
    VT, FF, CR, SP), U+00A0 of two bytes, and U+1680, U+2000 to U+200A,
    U+2028, U+2029, U+202F, U+205F, U+3000 and U+FEFF of three. *)
Definition is_ws (c : ascii) : bool :=
  let n := nat_of_ascii c in
  (n =? 9)%nat || (n =? 10)%nat || (n =? 11)%nat || (n =? 12)%nat
  || (n =? 13)%nat || (n =? 32)%nat.

Definition is_ws2 (c1 c2 : ascii) : bool :=
  (nat_of_ascii c1 =? 194)%nat && (nat_of_ascii c2 =? 160)%nat.

Definition is_ws3 (c1 c2 c3 : ascii) : bool :=
  let n1 := nat_of_ascii c1 in
  let n2 := nat_of_ascii c2 in
  let n3 := nat_of_ascii c3 in
  ((n1 =? 225) && (n2 =? 154) && (n3 =? 128))%nat
  || ((n1 =? 226) && (n2 =? 128)
      && (((128 <=? n3) && (n3 <=? 138)) || (n3 =? 168) || (n3 =? 169)
          || (n3 =? 175)))%nat
  || ((n1 =? 226) && (n2 =? 129) && (n3 =? 159))%nat
  || ((n1 =? 227) && (n2 =? 128) && (n3 =? 128))%nat
  || ((n1 =? 239) && (n2 =? 187) && (n3 =? 191))%nat.

Fixpoint trimStart (s : string) : string :=
  match s with
  | String c1 r1 =>
      if is_ws c1 then trimStart r1
      else
        match r1 with
        | String c2 r2 =>
            if is_ws2 c1 c2 then trimStart r2
            else
              match r2 with
              | String c3 r3 => if is_ws3 c1 c2 c3 then trimStart r3 else s
              | EmptyString => s
              end
        | EmptyString => s
        end
  | EmptyString => EmptyString
  end.

(** Everything from the last character that is not white space on is
    dropped. *)
Fixpoint trimEnd (s : string) : string :=
  match s with
  | String c r =>
      match trimStart s with
      | EmptyString => EmptyString
      | _ => String c (trimEnd r)
      end
  | EmptyString => EmptyString
  end.

Definition trim (s : string) : string := trimEnd (trimStart s).

(** Value of a digit in the given radix. *)
Definition digit_of (radix : Z) (c : ascii) : option Z :=
  let n := Z.of_nat (nat_of_ascii c) in
  let v :=
    if (48 <=? n) && (n <=? 57) then Some (n - 48)
    else if (97 <=? n) && (n <=? 102) then Some (n - 87)
    else if (65 <=? n) && (n <=? 70) then Some (n - 55)
    else None in
  match v with
  | Some d => if d <? radix then Some d else None
  | None => None
  end.

(** Longest prefix of digits: accumulated value, digit count, rest. *)
Fixpoint read_digits (radix : Z) (s : string) (acc : Z) (cnt : Z)
  : Z * Z * string :=
  match s with
  | String c r =>
      match digit_of radix c with
      | Some d => read_digits radix r (acc * radix + d) (cnt + 1)
      | None => (acc, cnt, s)
      end
  | EmptyString => (acc, cnt, s)
  end.

(** Correctly rounded binary64 value of [(-1)^neg * d * 10^e10]. *)
Definition decimal_to_number (neg : bool) (d e10 : Z) : number :=
  if d =? 0 then (if neg then neg_zero else PrimFloat.zero)
  else if 0 <=? e10 then
    SF2Prim (binary_normalize prec emax (cond_Zopp neg (d * 10 ^ e10)) 0 false)
  else
    let '(q, e', l) := SFdiv_core_binary prec emax d 0 (10 ^ (- e10)) 0 in
    SF2Prim (binary_round_aux prec emax neg q e' l).

Definition read_sign (s : string) : bool * string :=
  match s with
  | String "-" r => (true, r)
  | String "+" r => (false, r)
  | _ => (false, s)
  end.

(** Optional exponent part; [None] when the tail is not a valid ending. *)
Definition read_exponent (s : string) : option Z :=
  match s with
  | EmptyString => Some 0
  | String c r =>
      if (Ascii.eqb c "e" || Ascii.eqb c "E")%bool then
        let '(neg, r1) := read_sign r in
        match read_digits 10 r1 0 0 with
        | (v, cnt, EmptyString) =>
            if 0 <? cnt then Some (cond_Zopp neg v) else None
        | _ => None
        end
      else None
  end.

Definition unsigned_decimal (neg : bool) (s : string) : number :=
  if String.eqb s "Infinity" then (if neg then neg_infinity else infinity)
  else
    let '(i, ci, r1) := read_digits 10 s 0 0 in
    let '(d, cf, r2) :=
      match r1 with
      | String "." r => let '(d, cf, r2) := read_digits 10 r i 0 in (d, cf, r2)
      | _ => (i, 0, r1)
      end in
    if 0 <? ci + cf then
      match read_exponent r2 with
      | Some e => decimal_to_number neg d (e - cf)
      | None => nan
      end
    else nan.

Definition radix_literal (radix : Z) (s : string) : number :=
  match read_digits radix s 0 0 with
  | (v, cnt, EmptyString) =>
      if 0 <? cnt then decimal_to_number false v 0 else nan
  | _ => nan
  end.

(** [Number(s)] on a string (StringToNumber). *)
Definition Number (s : string) : number :=
  match trim s with
  | EmptyString => PrimFloat.zero
  | String "0" (String p r) as t =>
      if (Ascii.eqb p "x" || Ascii.eqb p "X")%bool then radix_literal 16 r
      else if (Ascii.eqb p "o" || Ascii.eqb p "O")%bool then radix_literal 8 r
      else if (Ascii.eqb p "b" || Ascii.eqb p "B")%bool then radix_literal 2 r
      else unsigned_decimal false t
  | t => let '(neg, r) := read_sign t in unsigned_decimal neg r
  end.

(** [s.split(",")]: the pieces between separators (never empty). *)
Fixpoint split (sep : ascii) (s : string) : list string :=
  match s with
  | EmptyString => [EmptyString]
  | String c r =>
      if Ascii.eqb c sep then EmptyString :: split sep r
      else
        match split sep r with
        | p :: ps => String c p :: ps
        | [] => [String c EmptyString]
        end
  end.

(** Truthiness of a string or null. *)
Definition truthy (s : option string) : bool :=
  match s with
  | Some (String _ _) => true
  | _ => false
  end.

(** [s || ""] on a string or null. *)
Definition or_empty (s : option string) : string :=
  match s with
  | Some t => t
  | None => EmptyString
  end.

End JS.

(** ** Canvas selection ([prepareReferenceImage]) *)

Module Canvas.
#[local] Open Scope float_scope.

Record Resolution := { w : JS.number; h : JS.number; label : string }.

Definition LARGE_RESOLUTIONS : list Resolution :=
  [ {| w := 1024; h := 1536; label := "portrait" |};
    {| w := 1472; h := 1472; label := "square" |};
    {| w := 1536; h := 1024; label := "landscape" |} ].

(** What [sharp(imagePath).metadata()] yields to the caller. *)
Record Metadata := {
  format : string;
  width : JS.number;
  height : JS.number;
  channels : JS.number;
  hasAlpha : bool;
}.

(** [Math.abs(aspect - res.w / res.h)]. *)
Definition diff (aspect : JS.number) (res : Resolution) : JS.number :=
  JS.Math_abs (aspect - w res / h res).

(** One turn of the [for (const res of LARGE_RESOLUTIONS)] loop over the
    pair [(best, bestDiff)]. *)
Definition step (aspect : JS.number) (st : Resolution * JS.number)
    (res : Resolution) : Resolution * JS.number :=
  if diff aspect res <? st.2 then (res, diff aspect res) else st.

Definition select (aspect : JS.number) (best0 : Resolution)
    (l : list Resolution) : Resolution * JS.number :=
  fold_left (step aspect) l (best0, infinity).

(** The canvas [best] that [prepareReferenceImage] resizes to. *)
Definition prepareReferenceImage_best (meta : Metadata) : Resolution :=
  let aspect := width meta / height meta in
  match LARGE_RESOLUTIONS with
  | first :: _ => (select aspect first LARGE_RESOLUTIONS).1
  | [] => {| w := nan; h := nan; label := "" |}
  end.

End Canvas.

(** ** Request options and payloads *)

(** JSON values, as serialised into the request body. *)
Inductive Value :=
| VNull
| VBool (b : bool)
| VNum (x : JS.number)
| VStr (s : string)
| VArr (items : list Value)
| VObj (fields : list (string * Value)).

Module Json.

Definition of_string_or_null (s : option string) : Value :=
  match s with
  | Some t => VStr t
  | None => VNull
  end.

(** Property access [v.k] on an object literal. *)
Fixpoint assoc (k : string) (fields : list (string * Value)) : option Value :=
  match fields with
  | (k', v) :: rest => if String.eqb k k' then Some v else assoc k rest
  | [] => None
  end.

Definition field (k : string) (v : Value) : option Value :=
  match v with
  | VObj fields => assoc k fields
  | _ => None
  end.

(** Access along a path of property names. *)
Fixpoint path (ks : list string) (v : Value) : option Value :=
  match ks with
  | [] => Some v
  | k :: rest =>
      match field k v with
      | Some v' => path rest v'
      | None => None
      end
  end.

(** [v.length] of an array. *)
Definition arr_length (v : Value) : option nat :=
  match v with
  | VArr items => Some (length items)
  | _ => None
  end.

(** [v[i]] of an array. *)
Definition arr_item (i : nat) (v : Value) : option Value :=
  match v with
  | VArr items => items !! i
  | _ => None
  end.

End Json.

(** The option bag built by [parseArgs]; a field that is [null] until a
    flag sets it is an [option]. *)
Module opts.
Record t := {
  action : string;
  directorTool : option string;
  prompt : option string;
  negative : option string;
  ref : option string;
  refCaption : string;
  strength : JS.number;
  fidelity : JS.number;
  infoExtracted : JS.number;
  vibes : list string;
  vibeStrengths : list JS.number;
  vibeInfos : list JS.number;
  normalizeVibes : bool;
  image : option string;
  mask : option string;
  magnitude : option JS.number;
  enhanceStrength : option JS.number;
  enhanceNoise : option JS.number;
  upscale : JS.number;
  inpaintStrength : JS.number;
  regions : list string;
  invertMask : bool;
  width : JS.number;
  height : JS.number;
  scale : JS.number;
  steps : JS.number;
  seed : option JS.number;
  cfgRescale : JS.number;
  sampler : string;
  noiseSchedule : string;
  smea : bool;
  smeaDyn : bool;
  autoSmea : bool;
  out : string;
  help : bool;
}.

(** Assignments [opts.f = v], one per property. *)
Definition set_action (v : string) (o : t) : t :=
  {| action := v; directorTool := directorTool o; prompt := prompt o;
     negative := negative o; ref := ref o; refCaption := refCaption o;
     strength := strength o; fidelity := fidelity o; infoExtracted :=
     infoExtracted o; vibes := vibes o; vibeStrengths := vibeStrengths
     o; vibeInfos := vibeInfos o; normalizeVibes := normalizeVibes o;
     image := image o; mask := mask o; magnitude := magnitude o;
     enhanceStrength := enhanceStrength o; enhanceNoise := enhanceNoise
     o; upscale := upscale o; inpaintStrength := inpaintStrength o;
     regions := regions o; invertMask := invertMask o; width := width o;
     height := height o; scale := scale o; steps := steps o; seed :=
     seed o; cfgRescale := cfgRescale o; sampler := sampler o;
     noiseSchedule := noiseSchedule o; smea := smea o; smeaDyn :=
     smeaDyn o; autoSmea := autoSmea o; out := out o; help := help o |}.
Definition set_directorTool (v : option string) (o : t) : t :=
  {| action := action o; directorTool := v; prompt := prompt o; negative
     := negative o; ref := ref o; refCaption := refCaption o; strength
     := strength o; fidelity := fidelity o; infoExtracted :=
     infoExtracted o; vibes := vibes o; vibeStrengths := vibeStrengths
     o; vibeInfos := vibeInfos o; normalizeVibes := normalizeVibes o;
     image := image o; mask := mask o; magnitude := magnitude o;
     enhanceStrength := enhanceStrength o; enhanceNoise := enhanceNoise
     o; upscale := upscale o; inpaintStrength := inpaintStrength o;
     regions := regions o; invertMask := invertMask o; width := width o;
     height := height o; scale := scale o; steps := steps o; seed :=
     seed o; cfgRescale := cfgRescale o; sampler := sampler o;
     noiseSchedule := noiseSchedule o; smea := smea o; smeaDyn :=
     smeaDyn o; autoSmea := autoSmea o; out := out o; help := help o |}.
Definition set_prompt (v : option string) (o : t) : t :=
  {| action := action o; directorTool := directorTool o; prompt := v;
     negative := negative o; ref := ref o; refCaption := refCaption o;
     strength := strength o; fidelity := fidelity o; infoExtracted :=
     infoExtracted o; vibes := vibes o; vibeStrengths := vibeStrengths
     o; vibeInfos := vibeInfos o; normalizeVibes := normalizeVibes o;
     image := image o; mask := mask o; magnitude := magnitude o;
     enhanceStrength := enhanceStrength o; enhanceNoise := enhanceNoise
     o; upscale := upscale o; inpaintStrength := inpaintStrength o;
     regions := regions o; invertMask := invertMask o; width := width o;
     height := height o; scale := scale o; steps := steps o; seed :=
     seed o; cfgRescale := cfgRescale o; sampler := sampler o;
     noiseSchedule := noiseSchedule o; smea := smea o; smeaDyn :=
     smeaDyn o; autoSmea := autoSmea o; out := out o; help := help o |}.
Definition set_negative (v : option string) (o : t) : t :=
  {| action := action o; directorTool := directorTool o; prompt :=
     prompt o; negative := v; ref := ref o; refCaption := refCaption o;
     strength := strength o; fidelity := fidelity o; infoExtracted :=
     infoExtracted o; vibes := vibes o; vibeStrengths := vibeStrengths
     o; vibeInfos := vibeInfos o; normalizeVibes := normalizeVibes o;
     image := image o; mask := mask o; magnitude := magnitude o;
     enhanceStrength := enhanceStrength o; enhanceNoise := enhanceNoise
     o; upscale := upscale o; inpaintStrength := inpaintStrength o;
     regions := regions o; invertMask := invertMask o; width := width o;
     height := height o; scale := scale o; steps := steps o; seed :=
     seed o; cfgRescale := cfgRescale o; sampler := sampler o;
     noiseSchedule := noiseSchedule o; smea := smea o; smeaDyn :=
     smeaDyn o; autoSmea := autoSmea o; out := out o; help := help o |}.
Definition set_ref (v : option string) (o : t) : t :=
  {| action := action o; directorTool := directorTool o; prompt :=
     prompt o; negative := negative o; ref := v; refCaption :=
     refCaption o; strength := strength o; fidelity := fidelity o;
     infoExtracted := infoExtracted o; vibes := vibes o; vibeStrengths
     := vibeStrengths o; vibeInfos := vibeInfos o; normalizeVibes :=
     normalizeVibes o; image := image o; mask := mask o; magnitude :=
     magnitude o; enhanceStrength := enhanceStrength o; enhanceNoise :=
     enhanceNoise o; upscale := upscale o; inpaintStrength :=
     inpaintStrength o; regions := regions o; invertMask := invertMask
     o; width := width o; height := height o; scale := scale o; steps :=
     steps o; seed := seed o; cfgRescale := cfgRescale o; sampler :=
     sampler o; noiseSchedule := noiseSchedule o; smea := smea o;
     smeaDyn := smeaDyn o; autoSmea := autoSmea o; out := out o; help :=
     help o |}.
Definition set_refCaption (v : string) (o : t) : t :=
  {| action := action o; directorTool := directorTool o; prompt :=
     prompt o; negative := negative o; ref := ref o; refCaption := v;
     strength := strength o; fidelity := fidelity o; infoExtracted :=
     infoExtracted o; vibes := vibes o; vibeStrengths := vibeStrengths
     o; vibeInfos := vibeInfos o; normalizeVibes := normalizeVibes o;
     image := image o; mask := mask o; magnitude := magnitude o;
     enhanceStrength := enhanceStrength o; enhanceNoise := enhanceNoise
     o; upscale := upscale o; inpaintStrength := inpaintStrength o;
     regions := regions o; invertMask := invertMask o; width := width o;
     height := height o; scale := scale o; steps := steps o; seed :=
     seed o; cfgRescale := cfgRescale o; sampler := sampler o;
     noiseSchedule := noiseSchedule o; smea := smea o; smeaDyn :=
     smeaDyn o; autoSmea := autoSmea o; out := out o; help := help o |}.
Definition set_strength (v : JS.number) (o : t) : t :=
  {| action := action o; directorTool := directorTool o; prompt :=
     prompt o; negative := negative o; ref := ref o; refCaption :=
     refCaption o; strength := v; fidelity := fidelity o; infoExtracted
     := infoExtracted o; vibes := vibes o; vibeStrengths :=
     vibeStrengths o; vibeInfos := vibeInfos o; normalizeVibes :=
     normalizeVibes o; image := image o; mask := mask o; magnitude :=
     magnitude o; enhanceStrength := enhanceStrength o; enhanceNoise :=
     enhanceNoise o; upscale := upscale o; inpaintStrength :=
     inpaintStrength o; regions := regions o; invertMask := invertMask
     o; width := width o; height := height o; scale := scale o; steps :=
     steps o; seed := seed o; cfgRescale := cfgRescale o; sampler :=
     sampler o; noiseSchedule := noiseSchedule o; smea := smea o;
     smeaDyn := smeaDyn o; autoSmea := autoSmea o; out := out o; help :=
     help o |}.
Definition set_fidelity (v : JS.number) (o : t) : t :=
  {| action := action o; directorTool := directorTool o; prompt :=
     prompt o; negative := negative o; ref := ref o; refCaption :=
     refCaption o; strength := strength o; fidelity := v; infoExtracted
     := infoExtracted o; vibes := vibes o; vibeStrengths :=
     vibeStrengths o; vibeInfos := vibeInfos o; normalizeVibes :=
     normalizeVibes o; image := image o; mask := mask o; magnitude :=
     magnitude o; enhanceStrength := enhanceStrength o; enhanceNoise :=
     enhanceNoise o; upscale := upscale o; inpaintStrength :=
     inpaintStrength o; regions := regions o; invertMask := invertMask
     o; width := width o; height := height o; scale := scale o; steps :=
     steps o; seed := seed o; cfgRescale := cfgRescale o; sampler :=
     sampler o; noiseSchedule := noiseSchedule o; smea := smea o;
     smeaDyn := smeaDyn o; autoSmea := autoSmea o; out := out o; help :=
     help o |}.
Definition set_infoExtracted (v : JS.number) (o : t) : t :=
  {| action := action o; directorTool := directorTool o; prompt :=
     prompt o; negative := negative o; ref := ref o; refCaption :=
     refCaption o; strength := strength o; fidelity := fidelity o;
     infoExtracted := v; vibes := vibes o; vibeStrengths :=
     vibeStrengths o; vibeInfos := vibeInfos o; normalizeVibes :=
     normalizeVibes o; image := image o; mask := mask o; magnitude :=
     magnitude o; enhanceStrength := enhanceStrength o; enhanceNoise :=
     enhanceNoise o; upscale := upscale o; inpaintStrength :=
     inpaintStrength o; regions := regions o; invertMask := invertMask
     o; width := width o; height := height o; scale := scale o; steps :=
     steps o; seed := seed o; cfgRescale := cfgRescale o; sampler :=
     sampler o; noiseSchedule := noiseSchedule o; smea := smea o;
     smeaDyn := smeaDyn o; autoSmea := autoSmea o; out := out o; help :=
     help o |}.
Definition set_vibes (v : list string) (o : t) : t :=
  {| action := action o; directorTool := directorTool o; prompt :=
     prompt o; negative := negative o; ref := ref o; refCaption :=
     refCaption o; strength := strength o; fidelity := fidelity o;
     infoExtracted := infoExtracted o; vibes := v; vibeStrengths :=
     vibeStrengths o; vibeInfos := vibeInfos o; normalizeVibes :=
     normalizeVibes o; image := image o; mask := mask o; magnitude :=
     magnitude o; enhanceStrength := enhanceStrength o; enhanceNoise :=
     enhanceNoise o; upscale := upscale o; inpaintStrength :=
     inpaintStrength o; regions := regions o; invertMask := invertMask
     o; width := width o; height := height o; scale := scale o; steps :=
     steps o; seed := seed o; cfgRescale := cfgRescale o; sampler :=
     sampler o; noiseSchedule := noiseSchedule o; smea := smea o;
     smeaDyn := smeaDyn o; autoSmea := autoSmea o; out := out o; help :=
     help o |}.
Definition set_vibeStrengths (v : list JS.number) (o : t) : t :=
  {| action := action o; directorTool := directorTool o; prompt :=
     prompt o; negative := negative o; ref := ref o; refCaption :=
     refCaption o; strength := strength o; fidelity := fidelity o;
     infoExtracted := infoExtracted o; vibes := vibes o; vibeStrengths
     := v; vibeInfos := vibeInfos o; normalizeVibes := normalizeVibes o;
     image := image o; mask := mask o; magnitude := magnitude o;
     enhanceStrength := enhanceStrength o; enhanceNoise := enhanceNoise
     o; upscale := upscale o; inpaintStrength := inpaintStrength o;
     regions := regions o; invertMask := invertMask o; width := width o;
     height := height o; scale := scale o; steps := steps o; seed :=
     seed o; cfgRescale := cfgRescale o; sampler := sampler o;
     noiseSchedule := noiseSchedule o; smea := smea o; smeaDyn :=
     smeaDyn o; autoSmea := autoSmea o; out := out o; help := help o |}.
Definition set_vibeInfos (v : list JS.number) (o : t) : t :=
  {| action := action o; directorTool := directorTool o; prompt :=
     prompt o; negative := negative o; ref := ref o; refCaption :=
     refCaption o; strength := strength o; fidelity := fidelity o;
     infoExtracted := infoExtracted o; vibes := vibes o; vibeStrengths
     := vibeStrengths o; vibeInfos := v; normalizeVibes :=
     normalizeVibes o; image := image o; mask := mask o; magnitude :=
     magnitude o; enhanceStrength := enhanceStrength o; enhanceNoise :=
     enhanceNoise o; upscale := upscale o; inpaintStrength :=
     inpaintStrength o; regions := regions o; invertMask := invertMask
     o; width := width o; height := height o; scale := scale o; steps :=
     steps o; seed := seed o; cfgRescale := cfgRescale o; sampler :=
     sampler o; noiseSchedule := noiseSchedule o; smea := smea o;
     smeaDyn := smeaDyn o; autoSmea := autoSmea o; out := out o; help :=
     help o |}.
Definition set_normalizeVibes (v : bool) (o : t) : t :=
  {| action := action o; directorTool := directorTool o; prompt :=
     prompt o; negative := negative o; ref := ref o; refCaption :=
     refCaption o; strength := strength o; fidelity := fidelity o;
     infoExtracted := infoExtracted o; vibes := vibes o; vibeStrengths
     := vibeStrengths o; vibeInfos := vibeInfos o; normalizeVibes := v;
     image := image o; mask := mask o; magnitude := magnitude o;
     enhanceStrength := enhanceStrength o; enhanceNoise := enhanceNoise
     o; upscale := upscale o; inpaintStrength := inpaintStrength o;
     regions := regions o; invertMask := invertMask o; width := width o;
     height := height o; scale := scale o; steps := steps o; seed :=
     seed o; cfgRescale := cfgRescale o; sampler := sampler o;
     noiseSchedule := noiseSchedule o; smea := smea o; smeaDyn :=
     smeaDyn o; autoSmea := autoSmea o; out := out o; help := help o |}.
Definition set_image (v : option string) (o : t) : t :=
  {| action := action o; directorTool := directorTool o; prompt :=
     prompt o; negative := negative o; ref := ref o; refCaption :=
     refCaption o; strength := strength o; fidelity := fidelity o;
     infoExtracted := infoExtracted o; vibes := vibes o; vibeStrengths
     := vibeStrengths o; vibeInfos := vibeInfos o; normalizeVibes :=
     normalizeVibes o; image := v; mask := mask o; magnitude :=
     magnitude o; enhanceStrength := enhanceStrength o; enhanceNoise :=
     enhanceNoise o; upscale := upscale o; inpaintStrength :=
     inpaintStrength o; regions := regions o; invertMask := invertMask
     o; width := width o; height := height o; scale := scale o; steps :=
     steps o; seed := seed o; cfgRescale := cfgRescale o; sampler :=
     sampler o; noiseSchedule := noiseSchedule o; smea := smea o;
     smeaDyn := smeaDyn o; autoSmea := autoSmea o; out := out o; help :=
     help o |}.
Definition set_mask (v : option string) (o : t) : t :=
  {| action := action o; directorTool := directorTool o; prompt :=
     prompt o; negative := negative o; ref := ref o; refCaption :=
     refCaption o; strength := strength o; fidelity := fidelity o;
     infoExtracted := infoExtracted o; vibes := vibes o; vibeStrengths
     := vibeStrengths o; vibeInfos := vibeInfos o; normalizeVibes :=
     normalizeVibes o; image := image o; mask := v; magnitude :=
     magnitude o; enhanceStrength := enhanceStrength o; enhanceNoise :=
     enhanceNoise o; upscale := upscale o; inpaintStrength :=
     inpaintStrength o; regions := regions o; invertMask := invertMask
     o; width := width o; height := height o; scale := scale o; steps :=
     steps o; seed := seed o; cfgRescale := cfgRescale o; sampler :=
     sampler o; noiseSchedule := noiseSchedule o; smea := smea o;
     smeaDyn := smeaDyn o; autoSmea := autoSmea o; out := out o; help :=
     help o |}.
Definition set_magnitude (v : option JS.number) (o : t) : t :=
  {| action := action o; directorTool := directorTool o; prompt :=
     prompt o; negative := negative o; ref := ref o; refCaption :=
     refCaption o; strength := strength o; fidelity := fidelity o;
     infoExtracted := infoExtracted o; vibes := vibes o; vibeStrengths
     := vibeStrengths o; vibeInfos := vibeInfos o; normalizeVibes :=
     normalizeVibes o; image := image o; mask := mask o; magnitude := v;
     enhanceStrength := enhanceStrength o; enhanceNoise := enhanceNoise
     o; upscale := upscale o; inpaintStrength := inpaintStrength o;
     regions := regions o; invertMask := invertMask o; width := width o;
     height := height o; scale := scale o; steps := steps o; seed :=
     seed o; cfgRescale := cfgRescale o; sampler := sampler o;
     noiseSchedule := noiseSchedule o; smea := smea o; smeaDyn :=
     smeaDyn o; autoSmea := autoSmea o; out := out o; help := help o |}.
Definition set_enhanceStrength (v : option JS.number) (o : t) : t :=
  {| action := action o; directorTool := directorTool o; prompt :=
     prompt o; negative := negative o; ref := ref o; refCaption :=
     refCaption o; strength := strength o; fidelity := fidelity o;
     infoExtracted := infoExtracted o; vibes := vibes o; vibeStrengths
     := vibeStrengths o; vibeInfos := vibeInfos o; normalizeVibes :=
     normalizeVibes o; image := image o; mask := mask o; magnitude :=
     magnitude o; enhanceStrength := v; enhanceNoise := enhanceNoise o;
     upscale := upscale o; inpaintStrength := inpaintStrength o; regions
     := regions o; invertMask := invertMask o; width := width o; height
     := height o; scale := scale o; steps := steps o; seed := seed o;
     cfgRescale := cfgRescale o; sampler := sampler o; noiseSchedule :=
     noiseSchedule o; smea := smea o; smeaDyn := smeaDyn o; autoSmea :=
     autoSmea o; out := out o; help := help o |}.
Definition set_enhanceNoise (v : option JS.number) (o : t) : t :=
  {| action := action o; directorTool := directorTool o; prompt :=
     prompt o; negative := negative o; ref := ref o; refCaption :=
     refCaption o; strength := strength o; fidelity := fidelity o;
     infoExtracted := infoExtracted o; vibes := vibes o; vibeStrengths
     := vibeStrengths o; vibeInfos := vibeInfos o; normalizeVibes :=
     normalizeVibes o; image := image o; mask := mask o; magnitude :=
     magnitude o; enhanceStrength := enhanceStrength o; enhanceNoise :=
     v; upscale := upscale o; inpaintStrength := inpaintStrength o;
     regions := regions o; invertMask := invertMask o; width := width o;
     height := height o; scale := scale o; steps := steps o; seed :=
     seed o; cfgRescale := cfgRescale o; sampler := sampler o;
     noiseSchedule := noiseSchedule o; smea := smea o; smeaDyn :=
     smeaDyn o; autoSmea := autoSmea o; out := out o; help := help o |}.
Definition set_upscale (v : JS.number) (o : t) : t :=
  {| action := action o; directorTool := directorTool o; prompt :=
     prompt o; negative := negative o; ref := ref o; refCaption :=
     refCaption o; strength := strength o; fidelity := fidelity o;
     infoExtracted := infoExtracted o; vibes := vibes o; vibeStrengths
     := vibeStrengths o; vibeInfos := vibeInfos o; normalizeVibes :=
     normalizeVibes o; image := image o; mask := mask o; magnitude :=
     magnitude o; enhanceStrength := enhanceStrength o; enhanceNoise :=
     enhanceNoise o; upscale := v; inpaintStrength := inpaintStrength o;
     regions := regions o; invertMask := invertMask o; width := width o;
     height := height o; scale := scale o; steps := steps o; seed :=
     seed o; cfgRescale := cfgRescale o; sampler := sampler o;
     noiseSchedule := noiseSchedule o; smea := smea o; smeaDyn :=
     smeaDyn o; autoSmea := autoSmea o; out := out o; help := help o |}.
Definition set_inpaintStrength (v : JS.number) (o : t) : t :=
  {| action := action o; directorTool := directorTool o; prompt :=
     prompt o; negative := negative o; ref := ref o; refCaption :=
     refCaption o; strength := strength o; fidelity := fidelity o;
     infoExtracted := infoExtracted o; vibes := vibes o; vibeStrengths
     := vibeStrengths o; vibeInfos := vibeInfos o; normalizeVibes :=
     normalizeVibes o; image := image o; mask := mask o; magnitude :=
     magnitude o; enhanceStrength := enhanceStrength o; enhanceNoise :=
     enhanceNoise o; upscale := upscale o; inpaintStrength := v; regions
     := regions o; invertMask := invertMask o; width := width o; height
     := height o; scale := scale o; steps := steps o; seed := seed o;
     cfgRescale := cfgRescale o; sampler := sampler o; noiseSchedule :=
     noiseSchedule o; smea := smea o; smeaDyn := smeaDyn o; autoSmea :=
     autoSmea o; out := out o; help := help o |}.
Definition set_regions (v : list string) (o : t) : t :=
  {| action := action o; directorTool := directorTool o; prompt :=
     prompt o; negative := negative o; ref := ref o; refCaption :=
     refCaption o; strength := strength o; fidelity := fidelity o;
     infoExtracted := infoExtracted o; vibes := vibes o; vibeStrengths
     := vibeStrengths o; vibeInfos := vibeInfos o; normalizeVibes :=
     normalizeVibes o; image := image o; mask := mask o; magnitude :=
     magnitude o; enhanceStrength := enhanceStrength o; enhanceNoise :=
     enhanceNoise o; upscale := upscale o; inpaintStrength :=
     inpaintStrength o; regions := v; invertMask := invertMask o; width
     := width o; height := height o; scale := scale o; steps := steps o;
     seed := seed o; cfgRescale := cfgRescale o; sampler := sampler o;
     noiseSchedule := noiseSchedule o; smea := smea o; smeaDyn :=
     smeaDyn o; autoSmea := autoSmea o; out := out o; help := help o |}.
Definition set_invertMask (v : bool) (o : t) : t :=
  {| action := action o; directorTool := directorTool o; prompt :=
     prompt o; negative := negative o; ref := ref o; refCaption :=
     refCaption o; strength := strength o; fidelity := fidelity o;
     infoExtracted := infoExtracted o; vibes := vibes o; vibeStrengths
     := vibeStrengths o; vibeInfos := vibeInfos o; normalizeVibes :=
     normalizeVibes o; image := image o; mask := mask o; magnitude :=
     magnitude o; enhanceStrength := enhanceStrength o; enhanceNoise :=
     enhanceNoise o; upscale := upscale o; inpaintStrength :=
     inpaintStrength o; regions := regions o; invertMask := v; width :=
     width o; height := height o; scale := scale o; steps := steps o;
     seed := seed o; cfgRescale := cfgRescale o; sampler := sampler o;
     noiseSchedule := noiseSchedule o; smea := smea o; smeaDyn :=
     smeaDyn o; autoSmea := autoSmea o; out := out o; help := help o |}.
Definition set_width (v : JS.number) (o : t) : t :=
  {| action := action o; directorTool := directorTool o; prompt :=
     prompt o; negative := negative o; ref := ref o; refCaption :=
     refCaption o; strength := strength o; fidelity := fidelity o;
     infoExtracted := infoExtracted o; vibes := vibes o; vibeStrengths
     := vibeStrengths o; vibeInfos := vibeInfos o; normalizeVibes :=
     normalizeVibes o; image := image o; mask := mask o; magnitude :=
     magnitude o; enhanceStrength := enhanceStrength o; enhanceNoise :=
     enhanceNoise o; upscale := upscale o; inpaintStrength :=
     inpaintStrength o; regions := regions o; invertMask := invertMask
     o; width := v; height := height o; scale := scale o; steps := steps
     o; seed := seed o; cfgRescale := cfgRescale o; sampler := sampler
     o; noiseSchedule := noiseSchedule o; smea := smea o; smeaDyn :=
     smeaDyn o; autoSmea := autoSmea o; out := out o; help := help o |}.
Definition set_height (v : JS.number) (o : t) : t :=
  {| action := action o; directorTool := directorTool o; prompt :=
     prompt o; negative := negative o; ref := ref o; refCaption :=
     refCaption o; strength := strength o; fidelity := fidelity o;
     infoExtracted := infoExtracted o; vibes := vibes o; vibeStrengths
     := vibeStrengths o; vibeInfos := vibeInfos o; normalizeVibes :=
     normalizeVibes o; image := image o; mask := mask o; magnitude :=
     magnitude o; enhanceStrength := enhanceStrength o; enhanceNoise :=
     enhanceNoise o; upscale := upscale o; inpaintStrength :=
     inpaintStrength o; regions := regions o; invertMask := invertMask
     o; width := width o; height := v; scale := scale o; steps := steps
     o; seed := seed o; cfgRescale := cfgRescale o; sampler := sampler
     o; noiseSchedule := noiseSchedule o; smea := smea o; smeaDyn :=
     smeaDyn o; autoSmea := autoSmea o; out := out o; help := help o |}.
Definition set_scale (v : JS.number) (o : t) : t :=
  {| action := action o; directorTool := directorTool o; prompt :=
     prompt o; negative := negative o; ref := ref o; refCaption :=
     refCaption o; strength := strength o; fidelity := fidelity o;
     infoExtracted := infoExtracted o; vibes := vibes o; vibeStrengths
     := vibeStrengths o; vibeInfos := vibeInfos o; normalizeVibes :=
     normalizeVibes o; image := image o; mask := mask o; magnitude :=
     magnitude o; enhanceStrength := enhanceStrength o; enhanceNoise :=
     enhanceNoise o; upscale := upscale o; inpaintStrength :=
     inpaintStrength o; regions := regions o; invertMask := invertMask
     o; width := width o; height := height o; scale := v; steps := steps
     o; seed := seed o; cfgRescale := cfgRescale o; sampler := sampler
     o; noiseSchedule := noiseSchedule o; smea := smea o; smeaDyn :=
     smeaDyn o; autoSmea := autoSmea o; out := out o; help := help o |}.
Definition set_steps (v : JS.number) (o : t) : t :=
  {| action := action o; directorTool := directorTool o; prompt :=
     prompt o; negative := negative o; ref := ref o; refCaption :=
     refCaption o; strength := strength o; fidelity := fidelity o;
     infoExtracted := infoExtracted o; vibes := vibes o; vibeStrengths
     := vibeStrengths o; vibeInfos := vibeInfos o; normalizeVibes :=
     normalizeVibes o; image := image o; mask := mask o; magnitude :=
     magnitude o; enhanceStrength := enhanceStrength o; enhanceNoise :=
     enhanceNoise o; upscale := upscale o; inpaintStrength :=
     inpaintStrength o; regions := regions o; invertMask := invertMask
     o; width := width o; height := height o; scale := scale o; steps :=
     v; seed := seed o; cfgRescale := cfgRescale o; sampler := sampler
     o; noiseSchedule := noiseSchedule o; smea := smea o; smeaDyn :=
     smeaDyn o; autoSmea := autoSmea o; out := out o; help := help o |}.
Definition set_seed (v : option JS.number) (o : t) : t :=
  {| action := action o; directorTool := directorTool o; prompt :=
     prompt o; negative := negative o; ref := ref o; refCaption :=
     refCaption o; strength := strength o; fidelity := fidelity o;
     infoExtracted := infoExtracted o; vibes := vibes o; vibeStrengths
     := vibeStrengths o; vibeInfos := vibeInfos o; normalizeVibes :=
     normalizeVibes o; image := image o; mask := mask o; magnitude :=
     magnitude o; enhanceStrength := enhanceStrength o; enhanceNoise :=
     enhanceNoise o; upscale := upscale o; inpaintStrength :=
     inpaintStrength o; regions := regions o; invertMask := invertMask
     o; width := width o; height := height o; scale := scale o; steps :=
     steps o; seed := v; cfgRescale := cfgRescale o; sampler := sampler
     o; noiseSchedule := noiseSchedule o; smea := smea o; smeaDyn :=
     smeaDyn o; autoSmea := autoSmea o; out := out o; help := help o |}.
Definition set_cfgRescale (v : JS.number) (o : t) : t :=
  {| action := action o; directorTool := directorTool o; prompt :=
     prompt o; negative := negative o; ref := ref o; refCaption :=
     refCaption o; strength := strength o; fidelity := fidelity o;
     infoExtracted := infoExtracted o; vibes := vibes o; vibeStrengths
     := vibeStrengths o; vibeInfos := vibeInfos o; normalizeVibes :=
     normalizeVibes o; image := image o; mask := mask o; magnitude :=
     magnitude o; enhanceStrength := enhanceStrength o; enhanceNoise :=
     enhanceNoise o; upscale := upscale o; inpaintStrength :=
     inpaintStrength o; regions := regions o; invertMask := invertMask
     o; width := width o; height := height o; scale := scale o; steps :=
     steps o; seed := seed o; cfgRescale := v; sampler := sampler o;
     noiseSchedule := noiseSchedule o; smea := smea o; smeaDyn :=
     smeaDyn o; autoSmea := autoSmea o; out := out o; help := help o |}.
Definition set_sampler (v : string) (o : t) : t :=
  {| action := action o; directorTool := directorTool o; prompt :=
     prompt o; negative := negative o; ref := ref o; refCaption :=
     refCaption o; strength := strength o; fidelity := fidelity o;
     infoExtracted := infoExtracted o; vibes := vibes o; vibeStrengths
     := vibeStrengths o; vibeInfos := vibeInfos o; normalizeVibes :=
     normalizeVibes o; image := image o; mask := mask o; magnitude :=
     magnitude o; enhanceStrength := enhanceStrength o; enhanceNoise :=
     enhanceNoise o; upscale := upscale o; inpaintStrength :=
     inpaintStrength o; regions := regions o; invertMask := invertMask
     o; width := width o; height := height o; scale := scale o; steps :=
     steps o; seed := seed o; cfgRescale := cfgRescale o; sampler := v;
     noiseSchedule := noiseSchedule o; smea := smea o; smeaDyn :=
     smeaDyn o; autoSmea := autoSmea o; out := out o; help := help o |}.
Definition set_noiseSchedule (v : string) (o : t) : t :=
  {| action := action o; directorTool := directorTool o; prompt :=
     prompt o; negative := negative o; ref := ref o; refCaption :=
     refCaption o; strength := strength o; fidelity := fidelity o;
     infoExtracted := infoExtracted o; vibes := vibes o; vibeStrengths
     := vibeStrengths o; vibeInfos := vibeInfos o; normalizeVibes :=
     normalizeVibes o; image := image o; mask := mask o; magnitude :=
     magnitude o; enhanceStrength := enhanceStrength o; enhanceNoise :=
     enhanceNoise o; upscale := upscale o; inpaintStrength :=
     inpaintStrength o; regions := regions o; invertMask := invertMask
     o; width := width o; height := height o; scale := scale o; steps :=
     steps o; seed := seed o; cfgRescale := cfgRescale o; sampler :=
     sampler o; noiseSchedule := v; smea := smea o; smeaDyn := smeaDyn
     o; autoSmea := autoSmea o; out := out o; help := help o |}.
Definition set_smea (v : bool) (o : t) : t :=
  {| action := action o; directorTool := directorTool o; prompt :=
     prompt o; negative := negative o; ref := ref o; refCaption :=
     refCaption o; strength := strength o; fidelity := fidelity o;
     infoExtracted := infoExtracted o; vibes := vibes o; vibeStrengths
     := vibeStrengths o; vibeInfos := vibeInfos o; normalizeVibes :=
     normalizeVibes o; image := image o; mask := mask o; magnitude :=
     magnitude o; enhanceStrength := enhanceStrength o; enhanceNoise :=
     enhanceNoise o; upscale := upscale o; inpaintStrength :=
     inpaintStrength o; regions := regions o; invertMask := invertMask
     o; width := width o; height := height o; scale := scale o; steps :=
     steps o; seed := seed o; cfgRescale := cfgRescale o; sampler :=
     sampler o; noiseSchedule := noiseSchedule o; smea := v; smeaDyn :=
     smeaDyn o; autoSmea := autoSmea o; out := out o; help := help o |}.
Definition set_smeaDyn (v : bool) (o : t) : t :=
  {| action := action o; directorTool := directorTool o; prompt :=
     prompt o; negative := negative o; ref := ref o; refCaption :=
     refCaption o; strength := strength o; fidelity := fidelity o;
     infoExtracted := infoExtracted o; vibes := vibes o; vibeStrengths
     := vibeStrengths o; vibeInfos := vibeInfos o; normalizeVibes :=
     normalizeVibes o; image := image o; mask := mask o; magnitude :=
     magnitude o; enhanceStrength := enhanceStrength o; enhanceNoise :=
     enhanceNoise o; upscale := upscale o; inpaintStrength :=
     inpaintStrength o; regions := regions o; invertMask := invertMask
     o; width := width o; height := height o; scale := scale o; steps :=
     steps o; seed := seed o; cfgRescale := cfgRescale o; sampler :=
     sampler o; noiseSchedule := noiseSchedule o; smea := smea o;
     smeaDyn := v; autoSmea := autoSmea o; out := out o; help := help o |}.
Definition set_autoSmea (v : bool) (o : t) : t :=
  {| action := action o; directorTool := directorTool o; prompt :=
     prompt o; negative := negative o; ref := ref o; refCaption :=
     refCaption o; strength := strength o; fidelity := fidelity o;
     infoExtracted := infoExtracted o; vibes := vibes o; vibeStrengths
     := vibeStrengths o; vibeInfos := vibeInfos o; normalizeVibes :=
     normalizeVibes o; image := image o; mask := mask o; magnitude :=
     magnitude o; enhanceStrength := enhanceStrength o; enhanceNoise :=
     enhanceNoise o; upscale := upscale o; inpaintStrength :=
     inpaintStrength o; regions := regions o; invertMask := invertMask
     o; width := width o; height := height o; scale := scale o; steps :=
     steps o; seed := seed o; cfgRescale := cfgRescale o; sampler :=
     sampler o; noiseSchedule := noiseSchedule o; smea := smea o;
     smeaDyn := smeaDyn o; autoSmea := v; out := out o; help := help o |}.
Definition set_out (v : string) (o : t) : t :=
  {| action := action o; directorTool := directorTool o; prompt :=
     prompt o; negative := negative o; ref := ref o; refCaption :=
     refCaption o; strength := strength o; fidelity := fidelity o;
     infoExtracted := infoExtracted o; vibes := vibes o; vibeStrengths
     := vibeStrengths o; vibeInfos := vibeInfos o; normalizeVibes :=
     normalizeVibes o; image := image o; mask := mask o; magnitude :=
     magnitude o; enhanceStrength := enhanceStrength o; enhanceNoise :=
     enhanceNoise o; upscale := upscale o; inpaintStrength :=
     inpaintStrength o; regions := regions o; invertMask := invertMask
     o; width := width o; height := height o; scale := scale o; steps :=
     steps o; seed := seed o; cfgRescale := cfgRescale o; sampler :=
     sampler o; noiseSchedule := noiseSchedule o; smea := smea o;
     smeaDyn := smeaDyn o; autoSmea := autoSmea o; out := v; help :=
     help o |}.
Definition set_help (v : bool) (o : t) : t :=
  {| action := action o; directorTool := directorTool o; prompt :=
     prompt o; negative := negative o; ref := ref o; refCaption :=
     refCaption o; strength := strength o; fidelity := fidelity o;
     infoExtracted := infoExtracted o; vibes := vibes o; vibeStrengths
     := vibeStrengths o; vibeInfos := vibeInfos o; normalizeVibes :=
     normalizeVibes o; image := image o; mask := mask o; magnitude :=
     magnitude o; enhanceStrength := enhanceStrength o; enhanceNoise :=
     enhanceNoise o; upscale := upscale o; inpaintStrength :=
     inpaintStrength o; regions := regions o; invertMask := invertMask
     o; width := width o; height := height o; scale := scale o; steps :=
     steps o; seed := seed o; cfgRescale := cfgRescale o; sampler :=
     sampler o; noiseSchedule := noiseSchedule o; smea := smea o;
     smeaDyn := smeaDyn o; autoSmea := autoSmea o; out := out o; help :=
     v |}.

(** The defaults [parseArgs] starts from. *)
Definition defaults : t := {|
  action := "generate"; directorTool := None;
  prompt := None; negative := None;
  ref := None; refCaption := "character&style";
  strength := 1%float; fidelity := 0%float; infoExtracted := 1%float;
  vibes := []; vibeStrengths := []; vibeInfos := []; normalizeVibes := true;
  image := None; mask := None;
  magnitude := None; enhanceStrength := None; enhanceNoise := None;
  upscale := 1%float;
  inpaintStrength := 0.7%float;
  regions := []; invertMask := false;
  width := 832%float; height := 1216%float; scale := 6%float;
  steps := 28%float; seed := None; cfgRescale := 0.4%float;
  sampler := "k_euler_ancestral"; noiseSchedule := "karras";
  smea := false; smeaDyn := false; autoSmea := true;
  out := "output"; help := false;
|}.
End opts.

(** ** Command line ([parseArgs]) *)

Module Cli.

Definition ACTIONS : list string :=
  ["generate"; "vibe"; "enhance"; "inpaint"; "director"; "mask"; "analyze"].

Definition DIRECTOR_TOOLS : list string :=
  ["bg-removal"; "line-art"; "sketch"; "colorize"; "emotion"; "declutter"].

(** [list.includes(a)]. *)
Definition includes (a : string) (l : list string) : bool :=
  existsb (String.eqb a) l.

(** [+next()]: the next argument as a number; a missing one is NaN. *)
Definition num (v : option string) : JS.number :=
  match v with
  | Some s => JS.Number s
  | None => nan
  end.

(** A [case] of the [switch]: a flag alone, or a flag that consumes
    [next()]. *)
Inductive Flag :=
| Switch (assign : opts.t → opts.t)
| Valued (assign : option string → opts.t → opts.t).

Definition push {A : Type} (x : A) (l : list A) : list A := l ++ [x].

Definition cases : list (string * Flag) :=
  [ ("--prompt", Valued opts.set_prompt);
    ("-p", Valued opts.set_prompt);
    ("--negative", Valued opts.set_negative);
    ("-n", Valued opts.set_negative);
    ("--ref", Valued opts.set_ref);
    ("-r", Valued opts.set_ref);
    ("--ref-caption", Valued (λ v, opts.set_refCaption (JS.or_empty v)));
    ("--strength", Valued (λ v, opts.set_strength (num v)));
    ("-s", Valued (λ v, opts.set_strength (num v)));
    ("--fidelity", Valued (λ v, opts.set_fidelity (num v)));
    ("-f", Valued (λ v, opts.set_fidelity (num v)));
    ("--info-extracted", Valued (λ v, opts.set_infoExtracted (num v)));
    ("--vibe",
      Valued (λ v o, opts.set_vibes (push (JS.or_empty v) (opts.vibes o)) o));
    ("--vibe-strength",
      Valued (λ v o,
        opts.set_vibeStrengths (push (num v) (opts.vibeStrengths o)) o));
    ("--vibe-info",
      Valued (λ v o, opts.set_vibeInfos (push (num v) (opts.vibeInfos o)) o));
    ("--no-normalize-vibes", Switch (opts.set_normalizeVibes false));
    ("--image", Valued opts.set_image);
    ("-i", Valued opts.set_image);
    ("--mask", Valued opts.set_mask);
    ("--magnitude", Valued (λ v, opts.set_magnitude (Some (num v))));
    ("--enhance-strength",
      Valued (λ v, opts.set_enhanceStrength (Some (num v))));
    ("--enhance-noise", Valued (λ v, opts.set_enhanceNoise (Some (num v))));
    ("--upscale", Valued (λ v, opts.set_upscale (num v)));
    ("--inpaint-strength", Valued (λ v, opts.set_inpaintStrength (num v)));
    ("--region",
      Valued (λ v o,
        opts.set_regions (push (JS.or_empty v) (opts.regions o)) o));
    ("--invert-mask", Switch (opts.set_invertMask true));
    ("--width", Valued (λ v, opts.set_width (num v)));
    ("-w", Valued (λ v, opts.set_width (num v)));
    ("--height", Valued (λ v, opts.set_height (num v)));
    ("-h", Valued (λ v, opts.set_height (num v)));
    ("--scale", Valued (λ v, opts.set_scale (num v)));
    ("--steps", Valued (λ v, opts.set_steps (num v)));
    ("--seed", Valued (λ v, opts.set_seed (Some (num v))));
    ("--cfg-rescale", Valued (λ v, opts.set_cfgRescale (num v)));
    ("--sampler", Valued (λ v, opts.set_sampler (JS.or_empty v)));
    ("--noise-schedule", Valued (λ v, opts.set_noiseSchedule (JS.or_empty v)));
    ("--smea", Switch (opts.set_smea true));
    ("--smea-dyn", Switch (opts.set_smeaDyn true));
    ("--no-auto-smea", Switch (opts.set_autoSmea false));
    ("--out", Valued (λ v, opts.set_out (JS.or_empty v)));
    ("-o", Valued (λ v, opts.set_out (JS.or_empty v)));
    ("--help", Switch (opts.set_help true)) ].

Fixpoint case_of (a : string) (l : list (string * Flag)) : option Flag :=
  match l with
  | (name, f) :: rest => if String.eqb a name then Some f else case_of a rest
  | [] => None
  end.

Definition startsWith (a pre : string) : bool := String.prefix pre a.

(** The loop [for (let i = 0; i < args.length; i++)]. *)
Fixpoint loop (args : list string) (o : opts.t) {struct args} : opts.t :=
  match args with
  | [] => o
  | a :: rest =>
      match case_of a cases with
      | Some (Switch assign) => loop rest (assign o)
      | Some (Valued assign) =>
          match rest with
          | v :: after => loop after (assign (Some v) o)
          | [] => assign None o
          end
      | None =>
          if negb (JS.truthy (opts.prompt o)) && negb (startsWith a "-")
          then loop rest (opts.set_prompt (Some a) o)
          else loop rest o
      end
  end.

(** [parseArgs()], on [argv = process.argv.slice(2)]. *)
Definition parseArgs (argv : list string) : opts.t :=
  let '(action, args) :=
    match argv with
    | a :: rest => if includes a ACTIONS then (a, rest) else ("generate", argv)
    | [] => ("generate", argv)
    end in
  let '(directorTool, args) :=
    match args with
    | a :: rest =>
        if String.eqb action "director" && includes a DIRECTOR_TOOLS
        then (Some a, rest) else (None, args)
    | [] => (None, args)
    end in
  loop args
    (opts.set_directorTool directorTool (opts.set_action action opts.defaults)).

End Cli.

(** ** Payload builders *)

Module Payload.
#[local] Open Scope float_scope.

(** The [parameters] object: a JavaScript object that the builders extend
    and overwrite by property name. *)
Definition Params := gmap string Value.

(** The request body. *)
Record t := {
  input : Value;
  model : string;
  action : string;
  parameters : Params;
}.

Definition caption (text : string) : Value :=
  VObj [("base_caption", VStr text); ("char_captions", VArr [])].

(** [baseParams(opts)].  [random] is the value [Math.random()] returns
    when the seed has to be drawn. *)
Definition baseParams (o : opts.t) (random : JS.number) : Params :=
  let seed := default (JS.Math_floor (random * 4294967296)) (opts.seed o) in
  let negPrompt := JS.or_empty (opts.negative o) in
  let isHighRes := 1024 * 1024 <? opts.width o * opts.height o in
  let sm := opts.smea o in
  let smDyn := opts.smeaDyn o in
  let smDyn :=
    if opts.autoSmea o && isHighRes && negb sm && negb smDyn then true
    else smDyn in
  list_to_map [
    ("params_version", VNum 3);
    ("width", VNum (opts.width o));
    ("height", VNum (opts.height o));
    ("scale", VNum (opts.scale o));
    ("sampler", VStr (opts.sampler o));
    ("steps", VNum (opts.steps o));
    ("seed", VNum seed);
    ("n_samples", VNum 1);
    ("ucPreset", VNum 0);
    ("qualityToggle", VBool true);
    ("sm", VBool sm);
    ("sm_dyn", VBool smDyn);
    ("dynamic_thresholding", VBool false);
    ("cfg_rescale", VNum (opts.cfgRescale o));
    ("noise_schedule", VStr (opts.noiseSchedule o));
    ("normalize_reference_strength_multiple", VBool true);
    ("prefer_brownian", VBool true);
    ("v4_prompt",
      VObj [("caption", caption (JS.or_empty (opts.prompt o)));
            ("use_coords", VBool false);
            ("use_order", VBool true)]);
    ("v4_negative_prompt",
      VObj [("caption", caption negPrompt);
            ("legacy_uc", VBool false)]);
    ("negative_prompt", VStr negPrompt)
  ].

(** [buildGeneratePayload(opts, refBase64)]; [refBase64] is [null] when no
    reference was given. *)
Definition buildGeneratePayload (o : opts.t) (refBase64 : option string)
    (random : JS.number) : t :=
  let params := baseParams o random in
  let params :=
    if JS.truthy refBase64 then
      let params :=
        <["director_reference_images" :=
            VArr [Json.of_string_or_null refBase64]]> params in
      let params :=
        <["director_reference_descriptions" :=
            VArr [VObj [("caption", caption (opts.refCaption o));
                        ("legacy_uc", VBool false)]]]> params in
      let params :=
        <["director_reference_information_extracted" :=
            VArr [VNum (opts.infoExtracted o)]]> params in
      let params :=
        <["director_reference_strength_values" :=
            VArr [VNum (opts.strength o)]]> params in
      <["director_reference_secondary_strength_values" :=
          VArr [VNum (opts.fidelity o)]]> params
    else params in
  {| input := Json.of_string_or_null (opts.prompt o);
     model := "nai-diffusion-4-5-full";
     action := "generate";
     parameters := params |}.

(** [buildVibePayload(opts, vibeBase64s)]. *)
Definition buildVibePayload (o : opts.t) (vibeBase64s : list string)
    (random : JS.number) : t :=
  let params := baseParams o random in
  let strengths :=
    imap (λ i _, default 0.6 (opts.vibeStrengths o !! i)) vibeBase64s in
  let infos :=
    imap (λ i _, default 1 (opts.vibeInfos o !! i)) vibeBase64s in
  let params :=
    <["reference_image_multiple" := VArr (VStr <$> vibeBase64s)]> params in
  let params :=
    <["reference_information_extracted_multiple" :=
        VArr (VNum <$> infos)]> params in
  let params :=
    <["reference_strength_multiple" := VArr (VNum <$> strengths)]> params in
  {| input := Json.of_string_or_null (opts.prompt o);
     model := "nai-diffusion-4-5-full";
     action := "generate";
     parameters := params |}.

(** [buildEnhancePayload(opts, imageBase64, imgWidth, imgHeight)]. *)
Definition buildEnhancePayload (o : opts.t) (imageBase64 : string)
    (imgWidth imgHeight : JS.number) (random : JS.number) : t :=
  let params := baseParams o random in
  let params := <["width" := VNum imgWidth]> params in
  let params := <["height" := VNum imgHeight]> params in
  let params := <["image" := VStr imageBase64]> params in
  let params :=
    match opts.magnitude o with
    | Some magnitude =>
        <["noise" := VNum (JS.Math_min (magnitude * 0.3) 0.3)]>
          (<["strength" := VNum magnitude]> params)
    | None => params
    end in
  let params :=
    match opts.enhanceStrength o with
    | Some s => <["strength" := VNum s]> params
    | None => params
    end in
  let params :=
    match opts.enhanceNoise o with
    | Some n => <["noise" := VNum n]> params
    | None => params
    end in
  let params :=
    match params !! "strength" with
    | None => <["strength" := VNum 0.5]> params
    | Some _ => params
    end in
  let params :=
    match params !! "noise" with
    | None => <["noise" := VNum 0.1]> params
    | Some _ => params
    end in
  let params :=
    match params !! "seed" with
    | Some seed => <["extra_noise_seed" := seed]> params
    | None => params
    end in
  let params :=
    if 1 <? opts.upscale o then
      <["height" := VNum (imgHeight * opts.upscale o)]>
        (<["width" := VNum (imgWidth * opts.upscale o)]> params)
    else params in
  {| input := Json.of_string_or_null (opts.prompt o);
     model := "nai-diffusion-4-5-full";
     action := "img2img";
     parameters := params |}.

(** [buildInpaintPayload(opts, imageBase64, maskBase64)]. *)
Definition buildInpaintPayload (o : opts.t) (imageBase64 maskBase64 : string)
    (random : JS.number) : t :=
  let params := baseParams o random in
  let params := <["image" := VStr imageBase64]> params in
  let params := <["mask" := VStr maskBase64]> params in
  let params := <["strength" := VNum (opts.inpaintStrength o)]> params in
  let params :=
    match params !! "seed" with
    | Some seed => <["extra_noise_seed" := seed]> params
    | None => params
    end in
  {| input := Json.of_string_or_null (opts.prompt o);
     model := "nai-diffusion-4-5-full";
     action := "infill";
     parameters := params |}.

(** The payload-building actions [main] dispatches on, each with the
    inputs it hands to the builder. *)
Inductive Request :=
| Generate (refBase64 : option string)
| Vibe (vibeBase64s : list string)
| Enhance (imageBase64 : string) (imgWidth imgHeight : JS.number)
| Inpaint (imageBase64 maskBase64 : string).

Definition build (o : opts.t) (req : Request) (random : JS.number) : t :=
  match req with
  | Generate refBase64 => buildGeneratePayload o refBase64 random
  | Vibe vibeBase64s => buildVibePayload o vibeBase64s random
  | Enhance imageBase64 imgWidth imgHeight =>
      buildEnhancePayload o imageBase64 imgWidth imgHeight random
  | Inpaint imageBase64 maskBase64 =>
      buildInpaintPayload o imageBase64 maskBase64 random
  end.

(** The seed [baseParams] resolves: the user's, or the one drawn. *)
Definition resolved_seed (o : opts.t) (random : JS.number) : JS.number :=
  default (JS.Math_floor (random * 4294967296)) (opts.seed o).

(** *** Reading the wire shape *)

(** [payload.parameters[k]]. *)
Definition param (k : string) (p : t) : option Value := parameters p !! k.

(** [payload.parameters[k].length]. *)
Definition param_length (k : string) (p : t) : option nat :=
  param k p ≫= Json.arr_length.

(** [payload.parameters[k][i]]. *)
Definition param_item (k : string) (i : nat) (p : t) : option Value :=
  param k p ≫= Json.arr_item i.

(** The two places of the prompt: [payload.input] and
    [payload.parameters.v4_prompt.caption.base_caption]. *)
Definition prompt_flat (p : t) : Value := input p.
Definition prompt_caption (p : t) : option Value :=
  param "v4_prompt" p ≫= Json.path ["caption"; "base_caption"].

(** The two places of the negative prompt:
    [payload.parameters.negative_prompt] and
    [payload.parameters.v4_negative_prompt.caption.base_caption]. *)
Definition negative_flat (p : t) : option Value := param "negative_prompt" p.
Definition negative_caption (p : t) : option Value :=
  param "v4_negative_prompt" p ≫= Json.path ["caption"; "base_caption"].

End Payload.

(** ** Exceptions *)

(** What the program, or a library it calls, can throw. *)
Inductive Exception :=
| InvalidRegion (regionStr : string)
    (* [new Error(`Invalid region: "${regionStr}" ...`)] in [createMask] *)
| NoPngFound
    (* [new Error("No PNG found in API response.")] in [extractPng] *)
| TypeError
    (* destructuring, or a method call, on [undefined] *)
| LibraryError (library : string).
    (* an error raised inside [sharp] or [adm-zip] *)

Inductive result (A : Type) :=
| Ok (a : A)
| Throw (e : Exception).
Arguments Ok {A} a.
Arguments Throw {A} e.

(** Sequencing: the first exception ends the computation. *)
#[global] Instance result_bind : MBind result := λ A B k m,
  match m with
  | Ok a => k a
  | Throw e => Throw e
  end.

#[global] Instance result_ret : MRet result := λ A a, Ok a.

(** ** Rasters, as the raster library ([sharp]) produces them *)

Module Raster.

Record rgb := { red : Z; green : Z; blue : Z }.

Definition black : rgb := {| red := 0; green := 0; blue := 0 |}.
Definition white : rgb := {| red := 255; green := 255; blue := 255 |}.

(** A three-channel image; [px x y] is read for [0 <= x < width] and
    [0 <= y < height]. *)
Record Image := { width : Z; height : Z; px : Z → Z → rgb }.

Definition pixelAt (img : Image) (x y : Z) : option rgb :=
  if (0 <=? x) && (x <? width img) && (0 <=? y) && (y <? height img)
  then Some (px img x y) else None.

(** [sharp({ create: { width, height, channels: 3, background } })]:
    the library accepts positive integral dimensions only. *)
Definition create (w h : JS.number) (background : rgb) : result Image :=
  match JS.to_Z w, JS.to_Z h with
  | Some wz, Some hz =>
      if (0 <? wz) && (0 <? hz)
      then Ok {| width := wz; height := hz; px := λ _ _, background |}
      else Throw (LibraryError "sharp")
  | _, _ => Throw (LibraryError "sharp")
  end.

(** An element of the [overlays] array: [{ input, left, top }]. *)
Record Overlay := { input : Image; left : JS.number; top : JS.number }.

(** Drawing [ov] over [base] with its corner at [(l, t)]; what falls
    outside [base] is not part of the result. *)
Definition paint (base ov : Image) (l t : Z) : Image :=
  {| width := width base;
     height := height base;
     px := λ x y,
       if (l <=? x) && (x <? l + width ov) && (t <=? y) && (y <? t + height ov)
       then px ov (x - l) (y - t)
       else px base x y |}.

(** [.composite(overlays)]: overlays are drawn in array order; offsets
    have to be integers, and the library refuses an overlay that is
    wider or taller than the image it is drawn on. *)
Fixpoint composite (base : Image) (overlays : list Overlay) : result Image :=
  match overlays with
  | [] => Ok base
  | ov :: rest =>
      match JS.to_Z (left ov), JS.to_Z (top ov) with
      | Some l, Some t =>
          if (width (input ov) <=? width base)
             && (height (input ov) <=? height base)
          then composite (paint base (input ov) l t) rest
          else Throw (LibraryError "sharp")
      | _, _ => Throw (LibraryError "sharp")
      end
  end.

Definition negate_rgb (c : rgb) : rgb :=
  {| red := 255 - red c; green := 255 - green c; blue := 255 - blue c |}.

(** [.negate({ alpha: false })]. *)
Definition negate (img : Image) : Image :=
  {| width := width img; height := height img;
     px := λ x y, negate_rgb (px img x y) |}.

End Raster.

(** ** Mask creation ([createMask]) *)

Module Mask.

(** [regionStr.split(",").map(Number)]. *)
Definition parts (regionStr : string) : list JS.number :=
  JS.Number <$> JS.split "," regionStr.

(** The body of [for (const regionStr of opts.regions)]: the overlay
    pushed for one region string. *)
Definition overlay_of (regionStr : string) : result Raster.Overlay :=
  let ps := parts regionStr in
  let rx := ps !! 0%nat in
  let ry := ps !! 1%nat in
  let rw := ps !! 2%nat in
  let rh := ps !! 3%nat in
  if existsb JS.isNaN [rx; ry; rw; rh] then Throw (InvalidRegion regionStr)
  else
    rect ← Raster.create (JS.ToNumber rw) (JS.ToNumber rh) Raster.white;
    Ok {| Raster.input := rect;
          Raster.left := JS.ToNumber rx;
          Raster.top := JS.ToNumber ry |}.

(** The whole loop: it stops at the first region that throws. *)
Fixpoint overlays_of (regions : list string) : result (list Raster.Overlay) :=
  match regions with
  | [] => Ok []
  | regionStr :: rest =>
      ov ← overlay_of regionStr;
      ovs ← overlays_of rest;
      Ok (ov :: ovs)
  end.

(** [createMask(opts)].  [meta] is the metadata of [opts.image], read
    only when an image was given; the result is the raster written to
    the mask file. *)
Definition createMask (o : opts.t) (meta : Canvas.Metadata)
    : result Raster.Image :=
  let '(w, h) :=
    if JS.truthy (opts.image o)
    then (Canvas.width meta, Canvas.height meta)
    else (opts.width o, opts.height o) in
  _ ← Raster.create w h Raster.black;
  mask ←
    (if (0 <? length (opts.regions o))%nat then
       overlays ← overlays_of (opts.regions o);
       base ← Raster.create w h Raster.black;
       Raster.composite base overlays
     else Raster.create w h Raster.white);
  if opts.invertMask o then Ok (Raster.negate mask) else Ok mask.

End Mask.

(** ** Detection translation (the region loop of [analyzeImage]) *)

Module Analyze.
#[local] Open Scope float_scope.

(** An element of the array parsed from the vision service's answer.
    A property that is absent is [None]; a present [box_2d] is an array
    of numbers of any length. *)
Record Detection := {
  label : option string;
  box_2d : option (list JS.number);
  issue : option string;
}.

(** The four numbers interpolated into the region string
    [`${px},${py},${pw},${ph}`]. *)
Record Region := {
  px : JS.number; py : JS.number; pw : JS.number; ph : JS.number;
}.

Inductive Level := log | warn | error.

(** A console line written for a detection. *)
Record Line := {
  level : Level;
  line_label : string;
  line_region : Region;
  line_issue : option string;
}.

(** [const [yMin, xMin, yMax, xMax] = box] and the four conversions. *)
Definition region_of (w h : JS.number) (box : list JS.number) : Region :=
  let yMin := JS.ToNumber (box !! 0%nat) in
  let xMin := JS.ToNumber (box !! 1%nat) in
  let yMax := JS.ToNumber (box !! 2%nat) in
  let xMax := JS.ToNumber (box !! 3%nat) in
  {| px := JS.Math_round (xMin / 1000 * w);
     py := JS.Math_round (yMin / 1000 * h);
     pw := JS.Math_round ((xMax - xMin) / 1000 * w);
     ph := JS.Math_round ((yMax - yMin) / 1000 * h) |}.

(** The loop [for (const det of detections)], over the accumulated
    [regionFlags] and console output.  An exception ends the loop; the
    lines already written stay written. *)
Fixpoint translate (w h : JS.number) (detections : list Detection)
    (regionFlags : list Region) (out : list Line)
    : result (list Region) * list Line :=
  match detections with
  | [] => (Ok regionFlags, out)
  | det :: rest =>
      match box_2d det with
      | None => (Throw TypeError, out)
      | Some box =>
          let region := region_of w h box in
          let regionFlags := regionFlags ++ [region] in
          match label det with
          | None => (Throw TypeError, out)
          | Some l =>
              let line :=
                {| level := log; line_label := l; line_region := region;
                   line_issue :=
                     if JS.truthy (issue det) then issue det else None |} in
              translate w h rest regionFlags (out ++ [line])
          end
      end
  end.

(** The regions [analyzeImage] derives from a batch of detections on a
    [w]×[h] image. *)
Definition regions_of (w h : JS.number) (detections : list Detection)
    : result (list Region) * list Line :=
  translate w h detections [] [].

End Analyze.

(** ** Response unwrapping ([extractPng] and the director branch of [main]) *)

Module Transport.

Record ZipEntry := { entryName : string; getData : string }.

(** A response body: its bytes, together with the entries [adm-zip]
    reads from them ([None] when the bytes are not an archive and the
    [AdmZip] constructor throws). *)
Record Buffer := { bytes : string; getEntries : option (list ZipEntry) }.

(** [name.endsWith(suffix)]. *)
Definition endsWith (name suffix : string) : bool :=
  let n := String.length name in
  let k := String.length suffix in
  (k <=? n)%nat && String.eqb (substring (n - k) k name) suffix.

(** [extractPng(zipBuffer)]. *)
Definition extractPng (zipBuffer : Buffer) : result string :=
  match getEntries zipBuffer with
  | None => Throw (LibraryError "adm-zip")
  | Some entries =>
      match List.find (λ e, endsWith (entryName e) ".png") entries with
      | Some png => Ok (getData png)
      | None => Throw NoPngFound
      end
  end.

(** The director branch of [main], from the response [result] of
    [callDirector] to the bytes written to the output file. *)
Definition director_output (response : Buffer) : result string :=
  pngData ← extractPng response;
  Ok pngData.

End Transport.


(** ** Director requests ([callDirector]) *)

Module Director.

(** [s || "neutral"] and the like, on a string or null. *)
Definition or_else (s : option string) (fallback : string) : string :=
  match s with
  | Some (String _ _ as t) => t
  | _ => fallback
  end.

(** The two options of [opts] that [callDirector] alone reads, with the
    values [parseArgs] starts from. *)
Record Levels := { defry : JS.number; emotionLevel : JS.number }.

Definition defaults : Levels := {| defry := 0%float; emotionLevel := 0.5%float |}.

(** The request body [callDirector] posts for [tool]. *)
Definition body (tool imageBase64 : string) (o : opts.t) (l : Levels)
    : gmap string Value :=
  let body : gmap string Value :=
    list_to_map [
      ("image", VStr imageBase64);
      ("width", VNum (opts.width o));
      ("height", VNum (opts.height o));
      ("req_type", VStr tool)
    ] in
  let body :=
    if String.eqb tool "colorize" then
      let body := <["defry" := VNum (defry l)]> body in
      if JS.truthy (opts.prompt o)
      then <["prompt" := Json.of_string_or_null (opts.prompt o)]> body
      else body
    else body in
  let body :=
    if String.eqb tool "emotion" then
      let body := <["prompt" := VStr (or_else (opts.prompt o) "neutral")]> body in
      <["defry" := VNum (emotionLevel l)]> body
    else body in
  body.

End Director.

(** ** Revision of the pipeline kept beside the current one
       ([src/unnamed/part_001]) *)

Module Revision1.

(** The director branch of [main] in that revision: extraction is tried,
    and on any exception the response is written out as it came. *)
Definition director_output (response : Transport.Buffer) : string :=
  match Transport.extractPng response with
  | Ok pngData => pngData
  | Throw _ => Transport.bytes response
  end.

End Revision1.

(** ** Environment file ([loadEnv]) *)

Module Env.

Definition LF : ascii := ascii_of_nat 10.
Definition double_quote : ascii := ascii_of_nat 34.
Definition single_quote : ascii := ascii_of_nat 39.

(** [s.indexOf(c)]; [None] stands for -1. *)
Fixpoint indexOf (c : ascii) (s : string) : option nat :=
  match s with
  | EmptyString => None
  | String d r => if Ascii.eqb d c then Some 0%nat else S <$> indexOf c r
  end.

(** [s.slice(n)]. *)
Fixpoint slice_from (n : nat) (s : string) : string :=
  match n, s with
  | O, _ => s
  | S n', String _ r => slice_from n' r
  | S _, EmptyString => EmptyString
  end.

(** [s.slice(0, n)]. *)
Definition slice_to (n : nat) (s : string) : string := substring 0 n s.

Definition is_quote (c : ascii) : bool :=
  Ascii.eqb c double_quote || Ascii.eqb c single_quote.

Fixpoint strip_last_quote (s : string) : string :=
  match s with
  | EmptyString => EmptyString
  | String c EmptyString => if is_quote c then EmptyString else s
  | String c r => String c (strip_last_quote r)
  end.

(** The [replace] of [loadEnv], whose pattern is a quote (double or
    single) at the start or at the end: one quote is taken off the
    front, one off the end. *)
Definition strip_quotes (s : string) : string :=
  match s with
  | String c r => if is_quote c then strip_last_quote r else strip_last_quote s
  | EmptyString => EmptyString
  end.

(** The variable a line defines, if any. *)
Definition parse_line (line : string) : option (string * string) :=
  let trimmed := JS.trim line in
  match trimmed with
  | EmptyString => None
  | String c _ =>
      if Ascii.eqb c "#" then None
      else
        match indexOf "=" trimmed with
        | Some (S eq') =>
            let eq := S eq' in
            Some (JS.trim (slice_to eq trimmed),
                  strip_quotes (JS.trim (slice_from (eq + 1) trimmed)))
        | _ => None
        end
  end.

(** The properties every object inherits: [process.env[key]] is a
    function (or the prototype) for these names unless the environment
    has a variable of that name. *)
Definition inherited : list string :=
  [ "constructor"; "__defineGetter__"; "__defineSetter__"; "hasOwnProperty";
    "__lookupGetter__"; "__lookupSetter__"; "isPrototypeOf";
    "propertyIsEnumerable"; "toString"; "valueOf"; "__proto__";
    "toLocaleString" ].

(** Truthiness of [process.env[key]], for the variables [env]. *)
Definition is_set (env : gmap string string) (key : string) : bool :=
  match env !! key with
  | Some v => JS.truthy (Some v)
  | None => existsb (String.eqb key) inherited
  end.

(** [if (!process.env[key]) process.env[key] = val]. *)
Definition define (env : gmap string string) (kv : string * string)
    : gmap string string :=
  if is_set env kv.1 then env else <[kv.1 := kv.2]> env.

Definition step (env : gmap string string) (line : string)
    : gmap string string :=
  match parse_line line with
  | Some kv => define env kv
  | None => env
  end.

(** [loadEnv()], on the contents of [.env] ([None] when the file cannot
    be read: the exception is swallowed) and the process environment. *)
Definition loadEnv (file : option string) (env : gmap string string)
    : gmap string string :=
  match file with
  | Some text => fold_left step (JS.split LF text) env
  | None => env
  end.

End Env.

(** ** Dispatch ([main]) *)

Module Main.

(** What [main] goes on to do, or the message it exits with. *)
Inductive Step :=
| PrintHelp
| Mask
| Analyze
| Director (tool : string)
| Vibe
| Enhance
| Inpaint
| Generate
| Exit (message : string).

Definition join (sep : string) (l : list string) : string := String.concat sep l.

(** The checks of [main], in its order, for the options and the two keys
    of the environment. *)
Definition plan (o : opts.t) (NOVELAI_API_KEY GEMINI_API_KEY : option string)
    : Step :=
  if opts.help o then PrintHelp
  else if String.eqb (opts.action o) "mask" then Mask
  else if String.eqb (opts.action o) "analyze" then
    if negb (JS.truthy (opts.image o))
    then Exit "Error: --image is required for analyze."
    else if negb (JS.truthy GEMINI_API_KEY)
    then Exit "Error: GEMINI_API_KEY not set. Add to .env for image analysis."
    else Analyze
  else if negb (JS.truthy NOVELAI_API_KEY)
  then Exit "Error: NOVELAI_API_KEY not set. Add to .env or set as env var."
  else if String.eqb (opts.action o) "director" then
    match opts.directorTool o with
    | Some (String _ _ as tool) =>
        if negb (JS.truthy (opts.image o))
        then Exit "Error: --image is required for director tools."
        else Director tool
    | _ =>
        Exit ("Error: specify a director tool: " ++ join ", " Cli.DIRECTOR_TOOLS)
    end
  else if negb (JS.truthy (opts.prompt o))
          && negb (String.eqb (opts.action o) "enhance")
  then Exit "Error: --prompt is required. Use --help for usage."
  else if String.eqb (opts.action o) "vibe" then
    if (length (opts.vibes o) =? 0)%nat
    then Exit "Error: at least one --vibe is required for vibe mode."
    else Vibe
  else if String.eqb (opts.action o) "enhance" then
    if negb (JS.truthy (opts.image o))
    then Exit "Error: --image is required for enhance mode."
    else Enhance
  else if String.eqb (opts.action o) "inpaint" then
    if negb (JS.truthy (opts.image o)) || negb (JS.truthy (opts.mask o))
    then Exit "Error: --image and --mask are required for inpaint mode."
    else Inpaint
  else Generate.

(** What the file system holds for [main]: the base64 of a file
    ([loadImageBase64]), the base64 of a reference fitted to its canvas
    ([prepareReferenceImage]), and the metadata of an image. *)
Record Files := {
  loadImageBase64 : string → string;
  prepareReferenceImage : string → string;
  metadata : string → Canvas.Metadata;
}.

(** The request [main] hands to the builders in a payload step. *)
Definition request (o : opts.t) (fs : Files) (step : Step)
    : option Payload.Request :=
  match step with
  | Vibe => Some (Payload.Vibe (prepareReferenceImage fs <$> opts.vibes o))
  | Enhance =>
      let image := JS.or_empty (opts.image o) in
      Some (Payload.Enhance (loadImageBase64 fs image)
              (Canvas.width (metadata fs image))
              (Canvas.height (metadata fs image)))
  | Inpaint =>
      Some (Payload.Inpaint (loadImageBase64 fs (JS.or_empty (opts.image o)))
              (loadImageBase64 fs (JS.or_empty (opts.mask o))))
  | Generate =>
      Some (Payload.Generate
              (if JS.truthy (opts.ref o)
               then Some (prepareReferenceImage fs (JS.or_empty (opts.ref o)))
               else None))
  | _ => None
  end.

(** The payload [main] sends, if it sends one. *)
Definition payload (o : opts.t) (NOVELAI_API_KEY GEMINI_API_KEY : option string)
    (fs : Files) (random : JS.number) : option Payload.t :=
  req ← request o fs (plan o NOVELAI_API_KEY GEMINI_API_KEY);
  Some (Payload.build o req random).

End Main.

(* ===================================================================== *)
(** * Part II.  Properties                                                *)
(* ===================================================================== *)

(** ** Binary64 facts *)

Module FloatFacts.

Lemma Prim2SF_nan : Prim2SF nan = S754_nan.
Proof. reflexivity. Qed.

(** *** The order of binary64 values

    Every value other than NaN gets a rank, a triple of integers ordered
    lexicographically: the comparisons of the program are comparisons of
    ranks. *)

Definition rank (x : spec_float) : option (Z * Z * Z) :=
  match x with
  | S754_nan => None
  | S754_infinity true => Some (-2, 0, 0)
  | S754_infinity false => Some (2, 0, 0)
  | S754_zero _ => Some (0, 0, 0)
  | S754_finite true m e => Some (-1, - e, Zneg m)
  | S754_finite false m e => Some (1, e, Zpos m)
  end.

Definition lex (a b : Z * Z * Z) : comparison :=
  match a.1.1 ?= b.1.1 with
  | Eq => match a.1.2 ?= b.1.2 with
          | Eq => a.2 ?= b.2
          | c => c
          end
  | c => c
  end.

Definition rank_lt (a b : Z * Z * Z) : Prop :=
  a.1.1 < b.1.1
  ∨ (a.1.1 = b.1.1 ∧ (a.1.2 < b.1.2 ∨ (a.1.2 = b.1.2 ∧ a.2 < b.2))).

Definition frank (x : float) : option (Z * Z * Z) := rank (Prim2SF x).

Lemma SFcompare_rank (x y : spec_float) :
  SFcompare x y
  = match rank x, rank y with
    | Some a, Some b => Some (lex a b)
    | _, _ => None
    end.
Proof.
  destruct x as [sx|sx| |sx mx ex], y as [sy|sy| |sy my ey];
    try destruct sx; try destruct sy; try reflexivity.
  cbn -[Z.compare]. unfold lex. cbn -[Z.compare].
  change (-1 ?= -1) with Eq. cbn match.
  rewrite Z.compare_opp, (Z.compare_antisym ex ey).
  destruct (ex ?= ey); reflexivity.
Qed.

Lemma lex_Lt (a b : Z * Z * Z) : lex a b = Lt ↔ rank_lt a b.
Proof.
  unfold lex, rank_lt.
  destruct (Z.compare_spec a.1.1 b.1.1), (Z.compare_spec a.1.2 b.1.2),
    (Z.compare_spec a.2 b.2); split; try done; try lia.
Qed.

Lemma lex_Eq (a b : Z * Z * Z) : lex a b = Eq ↔ a = b.
Proof.
  unfold lex. destruct a as [[a1 a2] a3], b as [[b1 b2] b3]. cbn.
  destruct (Z.compare_spec a1 b1), (Z.compare_spec a2 b2),
    (Z.compare_spec a3 b3); split; try done; try (intros [=]; lia).
  intros _. congruence.
Qed.

Lemma ltb_rank (x y : float) :
  (x <? y)%float = true ↔
  ∃ a b, frank x = Some a ∧ frank y = Some b ∧ rank_lt a b.
Proof.
  rewrite FloatAxioms.ltb_spec. unfold SFltb, frank. rewrite SFcompare_rank.
  destruct (rank (Prim2SF x)) as [a|], (rank (Prim2SF y)) as [b|];
    try (split; [done | by intros (? & ? & ? & ? & ?)]).
  destruct (lex a b) eqn:Hc; split; try done.
  - intros (? & ? & [= <-] & [= <-] & Hlt%lex_Lt). congruence.
  - intros _. exists a, b. by rewrite <- lex_Lt.
  - intros (? & ? & [= <-] & [= <-] & Hlt%lex_Lt). congruence.
Qed.

Lemma leb_rank (x y : float) :
  (x <=? y)%float = true ↔
  ∃ a b, frank x = Some a ∧ frank y = Some b ∧ (rank_lt a b ∨ a = b).
Proof.
  rewrite FloatAxioms.leb_spec. unfold SFleb, frank. rewrite SFcompare_rank.
  destruct (rank (Prim2SF x)) as [a|], (rank (Prim2SF y)) as [b|];
    try (split; [done | by intros (? & ? & ? & ? & ?)]).
  destruct (lex a b) eqn:Hc; split; try done.
  - intros _. exists a, b. apply lex_Eq in Hc. auto.
  - intros _. exists a, b. apply lex_Lt in Hc. auto.
  - intros (? & ? & [= <-] & [= <-] & [Hlt%lex_Lt|Heq%lex_Eq]); congruence.
Qed.

Lemma is_nan_rank (x : float) : is_nan x = true ↔ frank x = None.
Proof.
  unfold is_nan, frank. rewrite FloatAxioms.eqb_spec. unfold SFeqb.
  rewrite SFcompare_rank.
  destruct (rank (Prim2SF x)) as [a|]; [|done].
  by rewrite (proj2 (lex_Eq a a) eq_refl).
Qed.

Lemma not_nan_rank (x : float) : is_nan x = false ↔ is_Some (frank x).
Proof.
  rewrite <- not_true_iff_false, is_nan_rank.
  destruct (frank x); split; done.
Qed.

Lemma rank_nan (x : spec_float) : rank x = None ↔ x = S754_nan.
Proof. destruct x as [[]|[]| |[] ? ?]; split; done. Qed.

Lemma is_nan_Prim2SF (x : float) : is_nan x = true ↔ Prim2SF x = S754_nan.
Proof. by rewrite is_nan_rank, <- rank_nan. Qed.

(** *** NaN is contagious *)



Lemma mul_nan_l (x : float) : (nan * x)%float = nan.
Proof. apply Prim2SF_inj. rewrite FloatAxioms.mul_spec. reflexivity. Qed.

(** *** Rounding a non-negative mantissa never yields NaN *)

Lemma shr_1_nonneg (mrs : shr_record) :
  0 ≤ shr_m mrs → 0 ≤ shr_m (shr_1 mrs).
Proof. destruct mrs as [[|[p|p|]|p] r s]; cbn; lia. Qed.

Lemma iter_shr_1_nonneg (p : positive) (mrs : shr_record) :
  0 ≤ shr_m mrs → 0 ≤ shr_m (SpecFloat.iter_pos shr_1 p mrs).
Proof.
  revert mrs. induction p as [p IH|p IH|]; intros mrs Hm; cbn.
  - apply IH, IH. by apply shr_1_nonneg.
  - by apply IH, IH.
  - by apply shr_1_nonneg.
Qed.

Lemma shr_fexp_nonneg (m e : Z) (l : location) :
  0 ≤ m → 0 ≤ shr_m (shr_fexp prec emax m e l).1.
Proof.
  intros Hm. unfold shr_fexp, shr.
  assert (Hrec : 0 ≤ shr_m (shr_record_of_loc m l)) by (by destruct l as [|[]]).
  destruct (fexp prec emax (Zdigits2 m + e) - e); cbn [fst]; try done.
  by apply iter_shr_1_nonneg.
Qed.

Lemma round_nearest_even_nonneg (m : Z) (l : location) :
  0 ≤ m → 0 ≤ round_nearest_even m l.
Proof.
  intros Hm. destruct l as [|[]]; cbn; try lia.
  destruct (Z.even m); lia.
Qed.

Lemma binary_round_aux_not_nan (sx : bool) (mx ex : Z) (lx : location) :
  0 ≤ mx → binary_round_aux prec emax sx mx ex lx ≠ S754_nan.
Proof.
  intros Hm. unfold binary_round_aux.
  pose proof (shr_fexp_nonneg mx ex lx Hm) as H1.
  destruct (shr_fexp prec emax mx ex lx) as [mrs' e']. cbn [fst] in H1.
  pose proof (shr_fexp_nonneg _ e' loc_Exact
                (round_nearest_even_nonneg _ (loc_of_shr_record mrs') H1)) as H2.
  destruct (shr_fexp prec emax _ e' loc_Exact) as [mrs'' e'']. cbn [fst] in H2.
  destruct (shr_m mrs'') as [|m|m]; [done| |lia].
  by destruct (e'' <=? emax - prec).
Qed.

Lemma binary_normalize_not_nan (m e : Z) (szero : bool) :
  binary_normalize prec emax m e szero ≠ S754_nan.
Proof.
  destruct m as [|m|m]; cbn; try done; unfold binary_round;
    destruct (shl_align _ _ _) as [mz ez]; by apply binary_round_aux_not_nan.
Qed.

Lemma SFdiv_finite_not_nan (sx sy : bool) (mx my : positive) (ex ey : Z) :
  SF64div (S754_finite sx mx ex) (S754_finite sy my ey) ≠ S754_nan.
Proof.
  unfold SF64div, SFdiv, SFdiv_core_binary.
  set (s := _ - _ - _).
  set (m' := match s with Z.pos _ => _ | 0 => _ | Z.neg _ => _ end).
  assert (Hm' : 0 ≤ m').
  { subst m'. destruct s; try done. by apply Z.shiftl_nonneg. }
  pose proof (Z.div_pos m' (Z.pos my) Hm' eq_refl) as Hq.
  unfold Z.div in Hq. destruct (Z.div_eucl m' (Z.pos my)) as [q r].
  by apply binary_round_aux_not_nan.
Qed.

Lemma SFsub_finite_not_nan (x : spec_float) (sy : bool) (my : positive) (ey : Z) :
  x ≠ S754_nan → SF64sub x (S754_finite sy my ey) ≠ S754_nan.
Proof.
  intros Hx. destruct x as [sx|sx| |sx mx ex]; try done.
  apply binary_normalize_not_nan.
Qed.

(** A positive finite number. *)
Definition positive_finite (x : float) : Prop :=
  (0 <? x)%float = true ∧ (x <? infinity)%float = true.

Lemma positive_finite_SF (x : float) :
  positive_finite x → ∃ m e, Prim2SF x = S754_finite false m e.
Proof.
  intros [(a & b & Ha & Hb & Hlt)%ltb_rank (b' & c & Hb' & Hc & Hlt')%ltb_rank].
  unfold frank in *. rewrite Hb in Hb'. injection Hb' as <-.
  change (Prim2SF 0) with (S754_zero false) in Ha.
  change (Prim2SF infinity) with (S754_infinity false) in Hc.
  cbn in Ha, Hc. injection Ha as <-. injection Hc as <-.
  unfold rank_lt in *. cbn in *.
  destruct (Prim2SF x) as [s|[]| |[] m e]; cbn in Hb; try done;
    injection Hb as <-; cbn in *; try lia.
  by exists m, e.
Qed.

Lemma div_positive_finite_not_nan (x y : float) :
  positive_finite x → positive_finite y → is_nan (x / y) = false.
Proof.
  intros [mx [ex Hx]]%positive_finite_SF [my [ey Hy]]%positive_finite_SF.
  apply not_true_iff_false. rewrite is_nan_Prim2SF, FloatAxioms.div_spec, Hx, Hy.
  apply SFdiv_finite_not_nan.
Qed.

Lemma abs_sub_finite_not_nan (x y : float) (sy : bool) (my : positive) (ey : Z) :
  is_nan x = false →
  Prim2SF y = S754_finite sy my ey →
  is_nan (abs (x - y)) = false.
Proof.
  intros Hx%not_true_iff_false Hy. rewrite is_nan_Prim2SF in Hx.
  apply not_true_iff_false. rewrite is_nan_Prim2SF, FloatAxioms.abs_spec, FloatAxioms.sub_spec, Hy.
  pose proof (SFsub_finite_not_nan (Prim2SF x) sy my ey Hx) as Hsub.
  by destruct (SF64sub _ _).
Qed.

(** *** Consequences for the comparisons of the program *)

Lemma rank_below_infinity (x : spec_float) (a : Z * Z * Z) :
  rank x = Some a → ¬ rank_lt (2, 0, 0) a.
Proof.
  unfold rank_lt.
  destruct x as [[]|[]| |[] m e]; intros [= <-]; cbn; lia.
Qed.

Lemma frank_infinity : frank infinity = Some (2, 0, 0).
Proof. reflexivity. Qed.

Lemma rank_lt_total (a b : Z * Z * Z) : rank_lt a b ∨ a = b ∨ rank_lt b a.
Proof.
  unfold rank_lt. destruct a as [[a1 a2] a3], b as [[b1 b2] b3]; cbn.
  destruct (Z.lt_total a1 b1) as [?|[->|?]]; [lia| |lia].
  destruct (Z.lt_total a2 b2) as [?|[->|?]]; [lia| |lia].
  destruct (Z.lt_total a3 b3) as [?|[->|?]]; [lia| |lia].
  auto.
Qed.

Lemma rank_lt_trans (a b c : Z * Z * Z) :
  rank_lt a b → rank_lt b c → rank_lt a c.
Proof. unfold rank_lt. lia. Qed.

Lemma rank_lt_irrefl (a : Z * Z * Z) : ¬ rank_lt a a.
Proof. unfold rank_lt. lia. Qed.

Lemma ltb_trans (a b c : float) :
  (a <? b)%float = true → (b <? c)%float = true → (a <? c)%float = true.
Proof.
  intros (ra & rb & Ha & Hb & Hab)%ltb_rank (rb' & rc & Hb' & Hc & Hbc)%ltb_rank.
  rewrite Hb in Hb'. injection Hb' as <-.
  apply ltb_rank. exists ra, rc. eauto using rank_lt_trans.
Qed.

(** [a < b] and not [c < b], with [c] a number, give [a < c]. *)
Lemma ltb_below_bound (a b c : float) :
  (a <? b)%float = true → (c <? b)%float = false → is_nan c = false →
  (a <? c)%float = true.
Proof.
  intros (ra & rb & Ha & Hb & Hab)%ltb_rank Hcb [rc Hc]%not_nan_rank.
  apply ltb_rank. exists ra, rc. split; [done|]. split; [done|].
  destruct (rank_lt_total rb rc) as [?|[<-|Hlt]]; [|done|].
  - by eapply rank_lt_trans.
  - apply not_true_iff_false in Hcb. destruct Hcb.
    apply ltb_rank. eauto.
Qed.

(** Between numbers, "not below" is "at least". *)
Lemma not_ltb_leb (a b : float) :
  is_nan a = false → is_nan b = false → (a <? b)%float = false →
  (b <=? a)%float = true.
Proof.
  intros [ra Ha]%not_nan_rank [rb Hb]%not_nan_rank Hab.
  apply leb_rank. exists rb, ra. split; [done|]. split; [done|].
  destruct (rank_lt_total rb ra) as [?|[?|Hlt]]; [auto..|].
  apply not_true_iff_false in Hab. destruct Hab. apply ltb_rank. eauto.
Qed.

(** Numbers that are not below [Infinity] are at least any number. *)
Lemma not_below_infinity_leb (a b : float) :
  is_nan a = false → is_nan b = false → (b <? infinity)%float = false →
  (a <=? b)%float = true.
Proof.
  intros [ra Ha]%not_nan_rank [rb Hb]%not_nan_rank Hb'.
  apply leb_rank. exists ra, rb. split; [done|]. split; [done|].
  assert (rb = (2, 0, 0)) as ->.
  { destruct (rank_lt_total rb (2, 0, 0)) as [Hlt|[?|Hlt]]; [|done|].
    - apply not_true_iff_false in Hb'. destruct Hb'. apply ltb_rank.
      exists rb, (2, 0, 0). by rewrite frank_infinity.
    - by apply rank_below_infinity in Hb. }
  destruct (rank_lt_total ra (2, 0, 0)) as [?|[?|Hlt]]; [auto..|].
  by apply rank_below_infinity in Ha.
Qed.

Lemma ltb_leb (a b : float) :
  (a <? b)%float = true → (a <=? b)%float = true.
Proof.
  intros (ra & rb & Ha & Hb & Hlt)%ltb_rank. apply leb_rank. eauto 6.
Qed.

Lemma leb_refl (a : float) : is_nan a = false → (a <=? a)%float = true.
Proof. intros [ra Ha]%not_nan_rank. apply leb_rank. eauto 6. Qed.

Lemma SFmul_finite_not_nan (x : spec_float) (sy : bool) (my : positive)
    (ey : Z) :
  x ≠ S754_nan → SF64mul x (S754_finite sy my ey) ≠ S754_nan.
Proof.
  intros Hx. destruct x as [sx|sx| |sx mx ex]; try done.
  by apply binary_round_aux_not_nan.
Qed.

Lemma mul_finite_not_nan (x y : float) (sy : bool) (my : positive) (ey : Z) :
  is_nan x = false →
  Prim2SF y = S754_finite sy my ey →
  is_nan (x * y) = false.
Proof.
  intros Hx%not_true_iff_false Hy. rewrite is_nan_Prim2SF in Hx.
  apply not_true_iff_false. rewrite is_nan_Prim2SF, FloatAxioms.mul_spec, Hy.
  by apply SFmul_finite_not_nan.
Qed.

(** Every NaN is the one NaN of the embedding. *)
Lemma is_nan_eq (x : float) : is_nan x = true → x = nan.
Proof.
  intros Hx%is_nan_Prim2SF. apply Prim2SF_inj. by rewrite Hx.
Qed.

(** A positive finite value is determined by its rank. *)
Lemma rank_positive_finite (x : spec_float) (m : positive) (e : Z) :
  rank x = Some (1, e, Zpos m) → x = S754_finite false m e.
Proof. destruct x as [[]|[]| |[] m' e']; intros [=]; congruence. Qed.

(** A number that is neither below nor above a positive finite value is
    that value. *)
Lemma tie_with_positive_finite (a b : float) (m : positive) (e : Z) :
  is_nan a = false →
  Prim2SF b = S754_finite false m e →
  (a <? b)%float = false → (b <? a)%float = false →
  a = b.
Proof.
  intros [ra Ha]%not_nan_rank Hb Hab Hba.
  assert (Hrb : frank b = Some (1, e, Zpos m)) by (unfold frank; by rewrite Hb).
  apply Prim2SF_inj. rewrite Hb. apply rank_positive_finite.
  destruct (rank_lt_total ra (1, e, Zpos m)) as [Hlt|[<-|Hlt]]; [|done|].
  - apply not_true_iff_false in Hab. destruct Hab. apply ltb_rank. eauto.
  - apply not_true_iff_false in Hba. destruct Hba. apply ltb_rank. eauto.
Qed.

End FloatFacts.

(** ** Canvas selection *)

Module CanvasFacts.
Import Canvas FloatFacts.
#[local] Open Scope float_scope.

Section Loop.
Variable aspect : JS.number.

Lemma step_eq (best : Resolution) (bestDiff : JS.number) (res : Resolution) :
  step aspect (best, bestDiff) res
  = if diff aspect res <? bestDiff then (res, diff aspect res)
    else (best, bestDiff).
Proof. reflexivity. Qed.

(** The loop from any state [(best, bestDiff)]: either no candidate was
    below [bestDiff] and the state is unchanged, or the result is the
    first candidate of least difference. *)
Lemma loop_invariant (l : list Resolution) :
  (∀ res, res ∈ l → is_nan (diff aspect res) = false) →
  ∀ best bestDiff best' bestDiff',
    fold_left (step aspect) l (best, bestDiff) = (best', bestDiff') →
    ((best', bestDiff') = (best, bestDiff)
     ∧ ∀ res, res ∈ l → (diff aspect res <? bestDiff) = false)
    ∨ (∃ before after,
         l = before ++ best' :: after
         ∧ bestDiff' = diff aspect best'
         ∧ (diff aspect best' <? bestDiff) = true
         ∧ (∀ res, res ∈ before → (diff aspect best' <? diff aspect res) = true)
         ∧ (∀ res, res ∈ after → (diff aspect res <? diff aspect best') = false)).
Proof.
  induction l as [|res l IH]; intros Hnum best bestDiff best' bestDiff' Hfold.
  - left. cbn in Hfold. split; [done|].
    intros res Hres. by apply elem_of_nil in Hres.
  - cbn [fold_left] in Hfold. rewrite step_eq in Hfold.
    assert (Hl : ∀ r, r ∈ l → is_nan (diff aspect r) = false)
      by (intros r Hr; apply Hnum; by right).
    destruct (diff aspect res <? bestDiff) eqn:Hlt.
    + right.
      destruct (IH Hl _ _ _ _ Hfold) as [[[= -> ->] Hall]|Hex].
      * exists [], l. cbn. repeat split; try done.
        intros r Hr. by apply elem_of_nil in Hr.
      * destruct Hex as (before & after & Heq & Hd & Hlt' & Hbefore & Hafter).
        exists (res :: before), after. rewrite Heq at 1.
        split; [done|]. split; [done|]. split; [|split; [|done]].
        -- by eapply ltb_trans.
        -- intros r [->|Hr]%elem_of_cons; [done|by apply Hbefore].
    + destruct (IH Hl _ _ _ _ Hfold) as [[[= -> ->] Hall]|Hex].
      * left. split; [done|].
        intros r [->|Hr]%elem_of_cons; [done|by apply Hall].
      * right.
        destruct Hex as (before & after & Heq & Hd & Hlt' & Hbefore & Hafter).
        exists (res :: before), after. rewrite Heq at 1.
        split; [done|]. split; [done|]. split; [done|]. split; [|done].
        intros r [->|Hr]%elem_of_cons; [|by apply Hbefore].
        eapply ltb_below_bound; [exact Hlt'|exact Hlt|].
        apply Hnum. by left.
Qed.

End Loop.

Definition image (width height : JS.number) : Metadata :=
  {| format := "png"; width := width; height := height;
     channels := 3; hasAlpha := false |}.

Example portrait_source :
  label (prepareReferenceImage_best (image 832 1216)) = "portrait".
Proof. vm_compute. reflexivity. Qed.

Example square_source :
  label (prepareReferenceImage_best (image 1000 1000)) = "square".
Proof. vm_compute. reflexivity. Qed.

Example landscape_source :
  label (prepareReferenceImage_best (image 1920 1080)) = "landscape".
Proof. vm_compute. reflexivity. Qed.

(** At 5:4 the differences to the square and to the landscape canvas
    are both exactly 0.25, and the square canvas, declared first, is
    taken. *)
Example tie_goes_to_first :
  (diff (1250 / 1000) <$> LARGE_RESOLUTIONS) = [0.58333333333333337; 0.25; 0.25]
  ∧ label (prepareReferenceImage_best (image 1250 1000)) = "square".
Proof. split; vm_compute; reflexivity. Qed.

(** At 5:6 the differences to the portrait and to the square canvas are
    both 1/6 before rounding; the binary64 values the program compares
    are not tied, and the square canvas has the smaller one. *)
Example rounded_differences_5_6 :
  (diff (1000 / 1200) <$> LARGE_RESOLUTIONS)
  = [0.16666666666666674; 0.16666666666666663; 0.66666666666666663]
  ∧ label (prepareReferenceImage_best (image 1000 1200)) = "square".
Proof. split; vm_compute; reflexivity. Qed.

Lemma canvas_ratio_finite (res : Resolution) :
  res ∈ LARGE_RESOLUTIONS →
  ∃ s m e, Prim2SF (w res / h res) = S754_finite s m e.
Proof.
  unfold LARGE_RESOLUTIONS. rewrite !elem_of_cons, elem_of_nil.
  intros [->|[->|[->|[]]]]; do 3 eexists; vm_compute; reflexivity.
Qed.

Lemma diff_is_number (meta : Metadata) (res : Resolution) :
  positive_finite (width meta) → positive_finite (height meta) →
  res ∈ LARGE_RESOLUTIONS →
  is_nan (diff (width meta / height meta) res) = false.
Proof.
  intros Hw Hh (s & m & e & Hres)%canvas_ratio_finite.
  unfold diff, JS.Math_abs. eapply abs_sub_finite_not_nan; [|exact Hres].
  by apply div_positive_finite_not_nan.
Qed.

(** *** The selection of the claim, on exact ratios

    The claim compares [|width/height - w/h|] as ratios.  For integer
    sizes that difference is the fraction below, and fractions (of
    positive denominator) are compared by cross-multiplication. *)

Definition exact_diff (width height : Z) (res : Resolution) : Z * Z :=
  let cw := default 0%Z (JS.to_Z (w res)) in
  let ch := default 0%Z (JS.to_Z (h res)) in
  (Z.abs (width * ch - cw * height), height * ch)%Z.

Definition exact_ltb (a b : Z * Z) : bool := (a.1 * b.2 <? b.1 * a.2)%Z.

Definition exact_eqb (a b : Z * Z) : bool := (a.1 * b.2 =? b.1 * a.2)%Z.

(** The first entry of the table of least exact difference. *)
Definition claimed_best (width height : Z) : Resolution :=
  match LARGE_RESOLUTIONS with
  | first :: _ =>
      fold_left
        (λ best res,
           if exact_ltb (exact_diff width height res)
                        (exact_diff width height best)
           then res else best)
        LARGE_RESOLUTIONS first
  | [] => {| w := nan; h := nan; label := "" |}
  end.

(** C3, as the claim states it, fails.  For a 1000 × 1200 image the
    differences to the portrait and to the square canvas are both 1/6, so
    the claim's rule (least difference, the first entry on a tie) gives
    the portrait canvas.  The program compares the differences it
    computed in binary64 arithmetic, 0.16666666666666674 and
    0.16666666666666663: they are not tied, and it takes the square
    canvas. *)
Lemma exact_tie_goes_to_square :
  JS.to_Z (width (image 1000 1200)) = Some 1000%Z
  ∧ JS.to_Z (height (image 1000 1200)) = Some 1200%Z
  ∧ (exact_diff 1000 1200 <$> LARGE_RESOLUTIONS)
    = [ (307200, 1843200); (294400, 1766400); (819200, 1228800) ]%Z
  ∧ exact_eqb (307200, 1843200)%Z (1, 6)%Z = true
  ∧ exact_eqb (294400, 1766400)%Z (1, 6)%Z = true
  ∧ label (claimed_best 1000 1200) = "portrait"
  ∧ (PrimFloat.abs (1000 / 1200 - 1024 / 1536)
     <? PrimFloat.abs (1000 / 1200 - 1472 / 1472)) = false
  ∧ (PrimFloat.abs (1000 / 1200 - 1472 / 1472)
     <? PrimFloat.abs (1000 / 1200 - 1024 / 1536)) = true
  ∧ label (prepareReferenceImage_best (image 1000 1200)) = "square"
  ∧ prepareReferenceImage_best (image 1000 1200) ≠ claimed_best 1000 1200.
Proof.
  do 9 (split; [vm_compute; reflexivity|]).
  intros Heq. apply (f_equal label) in Heq. vm_compute in Heq. discriminate.
Qed.

(** The loop of [prepareReferenceImage], in terms of [diff]. *)
Lemma first_closest_by_diff (meta : Metadata) :
  positive_finite (width meta) →
  positive_finite (height meta) →
  let aspect := width meta / height meta in
  let best := prepareReferenceImage_best meta in
  (∃ before after,
     LARGE_RESOLUTIONS = before ++ best :: after
     ∧ (∀ res, res ∈ before → (diff aspect best <? diff aspect res) = true)
     ∧ (∀ res, res ∈ after → (diff aspect best <=? diff aspect res) = true))
  ∧ (∀ meta', width meta' = width meta → height meta' = height meta →
       prepareReferenceImage_best meta' = best).
Proof.
  intros Hw Hh aspect best. split.
  - pose proof (diff_is_number meta) as Hnum.
    specialize (λ res, Hnum res Hw Hh). fold aspect in Hnum.
    subst best. unfold prepareReferenceImage_best. fold aspect.
    change (match LARGE_RESOLUTIONS with
            | first :: _ => (select aspect first LARGE_RESOLUTIONS).1
            | [] => _
            end)
      with (select aspect {| w := 1024; h := 1536; label := "portrait" |}
              LARGE_RESOLUTIONS).1.
    unfold select.
    destruct (fold_left _ _ _) as [best' bestDiff'] eqn:Hfold. cbn [fst].
    destruct (loop_invariant aspect LARGE_RESOLUTIONS Hnum _ _ _ _ Hfold)
      as [[[= -> ->] Hall]|Hex].
    + exists [], (tail LARGE_RESOLUTIONS). split; [reflexivity|]. split.
      * intros res Hres. by apply elem_of_nil in Hres.
      * intros res Hres.
        assert (Hin : res ∈ LARGE_RESOLUTIONS) by (by right).
        apply not_below_infinity_leb; [| |by apply Hall]; apply Hnum;
          [by left|done].
    + destruct Hex as (before & after & Heq & _ & _ & Hbefore & Hafter).
      exists before, after. split; [done|]. split; [done|].
      intros res Hres.
      assert (Hin : res ∈ LARGE_RESOLUTIONS).
      { rewrite Heq. apply elem_of_app. right. by right. }
      assert (Hbest : best' ∈ LARGE_RESOLUTIONS).
      { rewrite Heq. apply elem_of_app. right. by left. }
      apply not_ltb_leb; [by apply Hnum..|by apply Hafter].
  - intros meta' Hw' Hh'. subst best.
    unfold prepareReferenceImage_best. by rewrite Hw', Hh'.
Qed.

(** C3, amended.  The table is portrait 1024 × 1536, square
    1472 × 1472, landscape 1536 × 1024, in this order.  For an image of
    positive finite width and height, the canvas [prepareReferenceImage]
    resizes to is the first entry whose difference, as computed in
    binary64 arithmetic ([width / height] rounded, [w / h] rounded, their
    difference rounded, then the absolute value), is least: every entry
    declared before it has a strictly larger computed difference, every
    entry after it a computed difference at least as large.  The choice
    depends on the metadata through [width] and [height] only. *)
Theorem canvas_is_first_closest (meta : Metadata) :
  positive_finite (width meta) →
  positive_finite (height meta) →
  let aspect := width meta / height meta in
  let best := prepareReferenceImage_best meta in
  ((λ res, (w res, h res, label res)) <$> LARGE_RESOLUTIONS)
  = [ (1024, 1536, "portrait"); (1472, 1472, "square");
      (1536, 1024, "landscape") ]
  ∧ (∃ before after,
       LARGE_RESOLUTIONS = before ++ best :: after
       ∧ (∀ res, res ∈ before →
            (PrimFloat.abs (aspect - w best / h best)
             <? PrimFloat.abs (aspect - w res / h res)) = true)
       ∧ (∀ res, res ∈ after →
            (PrimFloat.abs (aspect - w best / h best)
             <=? PrimFloat.abs (aspect - w res / h res)) = true))
  ∧ (∀ meta', width meta' = width meta → height meta' = height meta →
       prepareReferenceImage_best meta' = best).
Proof.
  intros Hw Hh aspect best. split; [reflexivity|].
  exact (first_closest_by_diff meta Hw Hh).
Qed.

Lemma canvas_is_first_closest_witness :
  let aspect := 1000 / 1200 in
  let best := prepareReferenceImage_best (image 1000 1200) in
  ((λ res, (w res, h res, label res)) <$> LARGE_RESOLUTIONS)
  = [ (1024, 1536, "portrait"); (1472, 1472, "square");
      (1536, 1024, "landscape") ]
  ∧ (∃ before after,
       LARGE_RESOLUTIONS = before ++ best :: after
       ∧ (∀ res, res ∈ before →
            (PrimFloat.abs (aspect - w best / h best)
             <? PrimFloat.abs (aspect - w res / h res)) = true)
       ∧ (∀ res, res ∈ after →
            (PrimFloat.abs (aspect - w best / h best)
             <=? PrimFloat.abs (aspect - w res / h res)) = true))
  ∧ (∀ meta', width meta' = 1000 → height meta' = 1200 →
       prepareReferenceImage_best meta' = best).
Proof.
  apply (canvas_is_first_closest (image 1000 1200)); split; reflexivity.
Defined.

End CanvasFacts.

(** ** Payload assembly *)

Module PayloadFacts.
Import Payload.
#[local] Open Scope float_scope.

(** The properties each builder writes into the base parameters. *)
Definition written (req : Request) : list string :=
  match req with
  | Generate _ =>
      [ "director_reference_images";
        "director_reference_descriptions";
        "director_reference_information_extracted";
        "director_reference_strength_values";
        "director_reference_secondary_strength_values" ]
  | Vibe _ =>
      [ "reference_image_multiple";
        "reference_information_extracted_multiple";
        "reference_strength_multiple" ]
  | Enhance _ _ _ =>
      [ "width"; "height"; "image"; "strength"; "noise"; "extra_noise_seed" ]
  | Inpaint _ _ => [ "image"; "mask"; "strength"; "extra_noise_seed" ]
  end.

(** What the builders rely on in a fresh base object. *)
Lemma base_fresh (o : opts.t) (random : JS.number) :
  baseParams o random !! "strength" = None
  ∧ baseParams o random !! "noise" = None
  ∧ baseParams o random !! "seed" = Some (VNum (resolved_seed o random)).
Proof. repeat split. Qed.

(** The base object is abstracted to a map with the three lookups of
    [base_fresh]; the assignments of a builder are then read off. *)
Ltac abstract_base o random :=
  let Hs := fresh "Hs" in
  let Hn := fresh "Hn" in
  let Hseed := fresh "Hseed" in
  destruct (base_fresh o random) as (Hs & Hn & Hseed);
  unfold Params in *;
  revert Hs Hn Hseed; generalize (baseParams o random);
  intros ? Hs Hn Hseed.

Lemma baseParams_seed (o : opts.t) (random : JS.number) :
  baseParams o random !! "seed" = Some (VNum (resolved_seed o random)).
Proof. reflexivity. Qed.

(** Sanity checks of the default request. *)
Example generate_default_geometry :
  param "width" (build opts.defaults (Generate None) 0.5) = Some (VNum 832)
  ∧ param "height" (build opts.defaults (Generate None) 0.5) = Some (VNum 1216)
  ∧ param "seed" (build opts.defaults (Generate None) 0.5)
    = Some (VNum 2147483648).
Proof. repeat split; vm_compute; reflexivity. Qed.

(** C5.  With neither [smea] nor [smeaDyn] forced and auto-selection on,
    [sm_dyn] is enabled exactly when [width * height] exceeds
    1024 * 1024 = 1048576; so 1472 × 1472 enables it and 832 × 1216
    does not. *)
Theorem sm_dyn_auto_enable (o : opts.t) (random : JS.number) :
  opts.smea o = false →
  opts.smeaDyn o = false →
  opts.autoSmea o = true →
  baseParams o random !! "sm_dyn"
    = Some (VBool (1048576 <? opts.width o * opts.height o))
  ∧ baseParams o random !! "sm" = Some (VBool false)
  ∧ (opts.width o = 1472 → opts.height o = 1472 →
     baseParams o random !! "sm_dyn" = Some (VBool true))
  ∧ (opts.width o = 832 → opts.height o = 1216 →
     baseParams o random !! "sm_dyn" = Some (VBool false)).
Proof.
  intros Hsm Hdyn Hauto.
  assert (Hgen : baseParams o random !! "sm_dyn"
                 = Some (VBool (1048576 <? opts.width o * opts.height o))).
  { unfold baseParams. rewrite Hsm, Hdyn, Hauto.
    change (1024 * 1024) with 1048576.
    destruct (1048576 <? opts.width o * opts.height o); reflexivity. }
  repeat split.
  - exact Hgen.
  - unfold baseParams. rewrite Hsm. reflexivity.
  - intros Hw Hh. rewrite Hgen, Hw, Hh. reflexivity.
  - intros Hw Hh. rewrite Hgen, Hw, Hh. reflexivity.
Qed.

Lemma sm_dyn_auto_enable_witness :
  baseParams opts.defaults 0.5 !! "sm_dyn" = Some (VBool false).
Proof.
  refine (proj1 (sm_dyn_auto_enable opts.defaults 0.5 _ _ _));
    reflexivity.
Defined.

(** [k ∉ written req] for a concrete property name [k]. *)
Ltac not_written :=
  cbn [written]; rewrite ?not_elem_of_cons;
  repeat split; first [discriminate | apply not_elem_of_nil].

(** Reading a property through a chain of assignments. *)
Ltac map_read :=
  repeat first
    [ rewrite lookup_insert_eq
    | rewrite lookup_insert_ne by discriminate
    | match goal with H : _ !! _ = _ |- _ => rewrite H end ].

(** A builder touches no property outside its own ones. *)
Lemma build_frame (o : opts.t) (req : Request) (random : JS.number)
    (k : string) :
  k ∉ written req →
  param k (build o req random) = baseParams o random !! k.
Proof.
  unfold param. destruct req as [refB|vibes|img iw ih|img msk];
    cbn [build written]; rewrite !not_elem_of_cons; intros Hk; destruct_and!.
  - unfold buildGeneratePayload. cbn [parameters]. cbv zeta.
    unfold Params in *.
    destruct (JS.truthy refB); [|done].
    by rewrite !lookup_insert_ne by congruence.
  - unfold buildVibePayload. cbn [parameters]. cbv zeta. unfold Params in *.
    by rewrite !lookup_insert_ne by congruence.
  - unfold buildEnhancePayload. cbn [parameters]. abstract_base o random.
    destruct (opts.magnitude o), (opts.enhanceStrength o),
      (opts.enhanceNoise o), (1 <? opts.upscale o); simplify_map_eq; done.
  - unfold buildInpaintPayload. cbn [parameters]. abstract_base o random.
    simplify_map_eq; done.
Qed.

(** The properties the enhance builder writes. *)
Lemma enhance_written (o : opts.t) (random : JS.number)
    (imageBase64 : string) (imgWidth imgHeight : JS.number) :
  let p := buildEnhancePayload o imageBase64 imgWidth imgHeight random in
  param "width" p
    = Some (VNum (if 1 <? opts.upscale o
                  then imgWidth * opts.upscale o else imgWidth))
  ∧ param "height" p
    = Some (VNum (if 1 <? opts.upscale o
                  then imgHeight * opts.upscale o else imgHeight))
  ∧ param "strength" p
    = Some (VNum (default (default 0.5 (opts.magnitude o))
                          (opts.enhanceStrength o)))
  ∧ param "noise" p
    = Some (VNum (default
                    (default 0.1
                       ((λ m, JS.Math_min (m * 0.3) 0.3) <$> opts.magnitude o))
                    (opts.enhanceNoise o)))
  ∧ param "extra_noise_seed" p = Some (VNum (resolved_seed o random))
  ∧ param "image" p = Some (VStr imageBase64).
Proof.
  cbv zeta. unfold param, buildEnhancePayload. cbn [parameters].
  abstract_base o random.
  destruct (opts.magnitude o), (opts.enhanceStrength o),
    (opts.enhanceNoise o), (1 <? opts.upscale o);
    cbn [default fmap option_fmap option_map]; map_read; done.
Qed.

(** C10.  In every enhance payload and every inpaint payload
    [extra_noise_seed] is the payload's resolved [seed], whether that
    seed came from the options or was drawn. *)
Theorem extra_noise_seed_is_seed (o : opts.t) (random : JS.number)
    (imageBase64 maskBase64 : string) (imgWidth imgHeight : JS.number) :
  let enhance := buildEnhancePayload o imageBase64 imgWidth imgHeight random in
  let inpaint := buildInpaintPayload o imageBase64 maskBase64 random in
  (param "seed" enhance = Some (VNum (resolved_seed o random))
   ∧ param "extra_noise_seed" enhance = param "seed" enhance)
  ∧ (param "seed" inpaint = Some (VNum (resolved_seed o random))
     ∧ param "extra_noise_seed" inpaint = param "seed" inpaint).
Proof.
  cbv zeta.
  destruct (enhance_written o random imageBase64 imgWidth imgHeight)
    as (_ & _ & _ & _ & Hextra & _).
  pose proof (build_frame o (Enhance imageBase64 imgWidth imgHeight) random
                "seed" ltac:(not_written)) as Henh.
  pose proof (build_frame o (Inpaint imageBase64 maskBase64) random
                "seed" ltac:(not_written)) as Hinp.
  cbn [build] in Henh, Hinp.
  rewrite Hextra, Henh, Hinp, (proj2 (proj2 (base_fresh o random))).
  split; [done|]. split; [done|].
  unfold param, buildInpaintPayload. cbn [parameters].
  abstract_base o random. by map_read.
Qed.

(** What the file system holds in the examples: every image decodes to
    832 × 1216. *)
Definition gallery : Main.Files :=
  {| Main.loadImageBase64 := String.append "b64:";
     Main.prepareReferenceImage := String.append "ref:";
     Main.metadata := λ _,
       {| Canvas.format := "png"; Canvas.width := 832;
          Canvas.height := 1216; Canvas.channels := 3;
          Canvas.hasAlpha := false |} |}.

(** C2, as the claim states it, fails.  [main] lets the enhance action
    through without a prompt, and builds a payload whose [input] is
    [null] while [v4_prompt.caption.base_caption] is the empty string:
    the two places of the prompt do not hold the same text. *)
Lemma promptless_enhance_copies_differ :
  let o := Cli.parseArgs ["enhance"; "--image"; "gen.png"] in
  ∃ p,
    Main.payload o (Some "pst-key") None gallery 0.5 = Some p
    ∧ Payload.action p = "img2img"
    ∧ prompt_flat p = VNull
    ∧ prompt_caption p = Some (VStr "")
    ∧ Some (prompt_flat p) ≠ prompt_caption p.
Proof.
  cbv zeta. eexists. split; [vm_compute; reflexivity|].
  split; [reflexivity|]. split; [reflexivity|].
  split; [vm_compute; reflexivity|]. vm_compute. discriminate.
Qed.

(** C2, amended.  In every payload kind (generate, vibe, enhance,
    inpaint) the negative prompt text is the same in [negative_prompt]
    and in [v4_negative_prompt.caption.base_caption].  The prompt is the
    same, character for character, in [input] and in
    [v4_prompt.caption.base_caption] whenever the options carry a prompt
    text; when they carry none, [input] is [null] and the caption is the
    empty string. *)
Theorem prompt_copies_identical (o : opts.t) (req : Request)
    (random : JS.number) :
  let p := build o req random in
  (∀ text, opts.prompt o = Some text →
     prompt_flat p = VStr text ∧ prompt_caption p = Some (VStr text))
  ∧ (opts.prompt o = None →
     prompt_flat p = VNull ∧ prompt_caption p = Some (VStr ""))
  ∧ (negative_flat p = Some (VStr (JS.or_empty (opts.negative o)))
     ∧ negative_caption p = negative_flat p).
Proof.
  cbv zeta.
  assert (Hflat : prompt_flat (build o req random)
                  = Json.of_string_or_null (opts.prompt o)).
  { unfold prompt_flat. by destruct req. }
  assert (Hcap : prompt_caption (build o req random)
                 = Some (VStr (JS.or_empty (opts.prompt o)))).
  { unfold prompt_caption. rewrite build_frame by (destruct req; not_written).
    reflexivity. }
  unfold negative_flat, negative_caption.
  rewrite !build_frame by (destruct req; not_written).
  rewrite Hflat, Hcap.
  split; [|split; [|split]].
  - by intros text ->.
  - by intros ->.
  - reflexivity.
  - reflexivity.
Qed.

Example prompt_copies_inpaint :
  let o := Cli.parseArgs ["inpaint"; "--prompt"; "1girl, solo";
                          "--negative"; "bad anatomy";
                          "--image"; "gen.png"; "--mask"; "mask.png"] in
  let p := build o (Inpaint "aW1n" "bWFzaw==") 0.25 in
  (prompt_flat p = VStr "1girl, solo"
   ∧ prompt_caption p = Some (VStr "1girl, solo"))
  ∧ (negative_flat p = Some (VStr "bad anatomy")
     ∧ negative_caption p = negative_flat p).
Proof. repeat split; vm_compute; reflexivity. Qed.

(** The five arrays of the precise-reference request. *)
Definition director_reference_arrays : list string :=
  [ "director_reference_images";
    "director_reference_descriptions";
    "director_reference_information_extracted";
    "director_reference_strength_values";
    "director_reference_secondary_strength_values" ].

(** The three arrays of the vibe request. *)
Definition vibe_arrays : list string :=
  [ "reference_image_multiple";
    "reference_information_extracted_multiple";
    "reference_strength_multiple" ].

Lemma vibe_arrays_length (o : opts.t) (vibeBase64s : list string)
    (random : JS.number) (k : string) :
  k ∈ vibe_arrays →
  param_length k (buildVibePayload o vibeBase64s random)
    = Some (length vibeBase64s).
Proof.
  unfold vibe_arrays. rewrite !elem_of_cons, elem_of_nil.
  intros [->|[->|[->|[]]]]; unfold param_length, param, buildVibePayload;
    cbn [parameters]; simplify_map_eq; cbn;
    rewrite ?length_fmap, ?length_imap; reflexivity.
Qed.

Lemma vibe_strength_item (o : opts.t) (vibeBase64s : list string)
    (random : JS.number) (i : nat) :
  (i < length vibeBase64s)%nat →
  param_item "reference_strength_multiple" i
      (buildVibePayload o vibeBase64s random)
    = Some (VNum (default 0.6 (opts.vibeStrengths o !! i))).
Proof.
  intros Hi. apply lookup_lt_is_Some in Hi as [v Hv].
  unfold param_item, param, buildVibePayload; cbn [parameters].
  simplify_map_eq. cbn.
  rewrite list_lookup_fmap, list_lookup_imap, Hv. reflexivity.
Qed.

Lemma vibe_info_item (o : opts.t) (vibeBase64s : list string)
    (random : JS.number) (i : nat) :
  (i < length vibeBase64s)%nat →
  param_item "reference_information_extracted_multiple" i
      (buildVibePayload o vibeBase64s random)
    = Some (VNum (default 1 (opts.vibeInfos o !! i))).
Proof.
  intros Hi. apply lookup_lt_is_Some in Hi as [v Hv].
  unfold param_item, param, buildVibePayload; cbn [parameters].
  simplify_map_eq. cbn.
  rewrite list_lookup_fmap, list_lookup_imap, Hv. reflexivity.
Qed.

Lemma vibe_image_item (o : opts.t) (vibeBase64s : list string)
    (random : JS.number) (i : nat) :
  param_item "reference_image_multiple" i
      (buildVibePayload o vibeBase64s random)
    = VStr <$> vibeBase64s !! i.
Proof.
  unfold param_item, param, buildVibePayload; cbn [parameters].
  simplify_map_eq. cbn. apply list_lookup_fmap.
Qed.

(** C1.  With one (non-empty) reference image the five
    [director_reference_*] arrays of the generate payload all have
    length 1; with [n] vibe images the three [reference_*_multiple]
    arrays of the vibe payload all have length [n], the [i]-th strength
    being the [i]-th [--vibe-strength] or else 0.6 and the [i]-th
    information value the [i]-th [--vibe-info] or else 1. *)
Theorem reference_arrays_lock_step (o : opts.t) (random : JS.number)
    (refBase64 : string) (vibeBase64s : list string) :
  refBase64 ≠ "" →
  (∀ k, k ∈ director_reference_arrays →
     param_length k (buildGeneratePayload o (Some refBase64) random)
       = Some 1%nat)
  ∧ (∀ k, k ∈ vibe_arrays →
       param_length k (buildVibePayload o vibeBase64s random)
         = Some (length vibeBase64s))
  ∧ (∀ i, (i < length vibeBase64s)%nat →
       let p := buildVibePayload o vibeBase64s random in
       param_item "reference_image_multiple" i p = VStr <$> vibeBase64s !! i
       ∧ param_item "reference_strength_multiple" i p
         = Some (VNum (default 0.6 (opts.vibeStrengths o !! i)))
       ∧ param_item "reference_information_extracted_multiple" i p
         = Some (VNum (default 1 (opts.vibeInfos o !! i)))).
Proof.
  intros Href. split; [|split].
  - intros k. unfold director_reference_arrays.
    rewrite !elem_of_cons, elem_of_nil.
    unfold param_length, param, buildGeneratePayload.
    destruct refBase64 as [|c r]; [done|]. cbn [JS.truthy parameters].
    intros [->|[->|[->|[->|[->|[]]]]]]; reflexivity.
  - intros k Hk. by apply vibe_arrays_length.
  - intros i Hi. cbv zeta. split; [|split].
    + apply vibe_image_item.
    + by apply vibe_strength_item.
    + by apply vibe_info_item.
Qed.

Lemma reference_arrays_lock_step_witness :
  let o := Cli.parseArgs ["vibe"; "--prompt"; "1girl";
                          "--vibe"; "a.png"; "--vibe"; "b.png";
                          "--vibe-strength"; "0.8"] in
  param_length "director_reference_strength_values"
    (buildGeneratePayload o (Some "iVBORw0KGgo=") 0.5) = Some 1%nat
  ∧ param_length "reference_strength_multiple"
      (buildVibePayload o ["iVBORw0KGgo="; "iVBORw0KGgp="] 0.5) = Some 2%nat
  ∧ param_item "reference_strength_multiple" 1%nat
      (buildVibePayload o ["iVBORw0KGgo="; "iVBORw0KGgp="] 0.5)
    = Some (VNum 0.6).
Proof.
  pose proof (reference_arrays_lock_step
    (Cli.parseArgs ["vibe"; "--prompt"; "1girl";
                    "--vibe"; "a.png"; "--vibe"; "b.png";
                    "--vibe-strength"; "0.8"])
    0.5 "iVBORw0KGgo=" ["iVBORw0KGgo="; "iVBORw0KGgp="]
    ltac:(discriminate)) as (Hgen & Hvibe & Hitem).
  split; [|split].
  - apply Hgen. unfold director_reference_arrays. repeat constructor.
  - apply Hvibe. unfold vibe_arrays. repeat constructor.
  - refine (proj1 (proj2 (Hitem 1%nat _))). cbn. lia.
Defined.

(** [Math.min(a, 0.3)] is the smaller of the two, by the comparison of
    the machine. *)
Lemma Math_min_cap (a : JS.number) :
  is_nan a = false →
  JS.Math_min a 0.3 = if a <? 0.3 then a else 0.3.
Proof.
  intros Ha. unfold JS.Math_min. rewrite Ha.
  change (is_nan 0.3) with false. cbn [orb].
  destruct (a <? 0.3) eqn:Hlt; [done|].
  destruct (0.3 <? a) eqn:Hgt; [done|].
  rewrite (FloatFacts.tie_with_positive_finite a 0.3 _ _ Ha eq_refl Hlt Hgt).
  by destruct (get_sign 0.3).
Qed.

Lemma magnitude_noise (m : JS.number) :
  JS.Math_min (m * 0.3) 0.3
  = if is_nan m then nan else if m * 0.3 <? 0.3 then m * 0.3 else 0.3.
Proof.
  destruct (is_nan m) eqn:Hm.
  - apply FloatFacts.is_nan_eq in Hm as ->.
    rewrite FloatFacts.mul_nan_l. reflexivity.
  - apply Math_min_cap.
    eapply FloatFacts.mul_finite_not_nan; [exact Hm|]. vm_compute. reflexivity.
Qed.

(** C8.  The enhance payload takes its geometry from the decoded image
    ([imgWidth], [imgHeight]) and never from [opts.width]/[opts.height];
    an upscale factor above 1 multiplies both; [strength] is the
    explicit [--enhance-strength], else the magnitude, else 0.5;
    [noise] is the explicit [--enhance-noise], else the smaller of
    [magnitude * 0.3] and 0.3 (NaN for a magnitude that is not a number),
    else 0.1.  With upscale 2 a decoded 832 × 1216 image gives
    1664 × 2432. *)
Theorem enhance_payload_geometry (o : opts.t) (random : JS.number)
    (imageBase64 : string) (imgWidth imgHeight : JS.number) :
  let p := buildEnhancePayload o imageBase64 imgWidth imgHeight random in
  param "width" p
    = Some (VNum (if 1 <? opts.upscale o
                  then imgWidth * opts.upscale o else imgWidth))
  ∧ param "height" p
    = Some (VNum (if 1 <? opts.upscale o
                  then imgHeight * opts.upscale o else imgHeight))
  ∧ param "strength" p
    = Some (VNum match opts.enhanceStrength o, opts.magnitude o with
                 | Some strength, _ => strength
                 | None, Some m => m
                 | None, None => 0.5
                 end)
  ∧ param "noise" p
    = Some (VNum match opts.enhanceNoise o, opts.magnitude o with
                 | Some noise, _ => noise
                 | None, Some m =>
                     if is_nan m then nan
                     else if m * 0.3 <? 0.3 then m * 0.3 else 0.3
                 | None, None => 0.1
                 end)
  ∧ (opts.upscale o = 2 → imgWidth = 832 → imgHeight = 1216 →
     param "width" p = Some (VNum 1664)
     ∧ param "height" p = Some (VNum 2432)).
Proof.
  cbv zeta.
  destruct (enhance_written o random imageBase64 imgWidth imgHeight)
    as (Hw & Hh & Hs & Hn & _).
  split; [exact Hw|]. split; [exact Hh|]. split; [|split].
  - rewrite Hs. by destruct (opts.enhanceStrength o), (opts.magnitude o).
  - rewrite Hn.
    destruct (opts.enhanceNoise o) as [noise|], (opts.magnitude o) as [m|];
      cbn [default fmap option_fmap option_map]; try reflexivity.
    by rewrite magnitude_noise.
  - intros Hu -> ->. rewrite Hw, Hh, Hu. split; reflexivity.
Qed.

(** Magnitudes on both sides of the cap: 0.5 gives noise 0.15, 5 gives
    0.3. *)
Example enhance_noise_capped :
  let build m :=
    buildEnhancePayload
      (Cli.parseArgs ["enhance"; "--image"; "gen.png"; "--magnitude"; m])
      "aW1n" 832 1216 0.5 in
  param "noise" (build "0.5") = Some (VNum 0.15)
  ∧ param "noise" (build "5") = Some (VNum 0.3)
  ∧ param "strength" (build "5") = Some (VNum 5).
Proof. repeat split; vm_compute; reflexivity. Qed.

Example enhance_upscale_example :
  let o := Cli.parseArgs ["enhance"; "--image"; "gen.png"; "--upscale"; "2";
                          "--magnitude"; "0.5"] in
  let p := buildEnhancePayload o "aW1n" 832 1216 0.5 in
  param "width" p = Some (VNum 1664)
  ∧ param "height" p = Some (VNum 2432)
  ∧ param "strength" p = Some (VNum 0.5)
  ∧ param "noise" p = Some (VNum 0.15).
Proof. repeat split; vm_compute; reflexivity. Qed.

End PayloadFacts.

(** ** Response unwrapping *)

Module TransportFacts.
Import Transport.

(** A director response that is a bare PNG, not an archive. *)
Definition raw_png_response : Buffer :=
  {| bytes := "PNG-bytes"; getEntries := None |}.

(** A director response that is an archive holding one PNG. *)
Definition zipped_png_response : Buffer :=
  {| bytes := "PK-bytes";
     getEntries := Some [ {| entryName := "image_0.png";
                             getData := "PNG-bytes" |} ] |}.

Example director_zipped_response :
  director_output zipped_png_response = Ok "PNG-bytes".
Proof. reflexivity. Qed.

Lemma find_none_forall {A : Type} (f : A → bool) (l : list A) :
  List.find f l = None ↔ Forall (λ x, f x = false) l.
Proof.
  induction l as [|x l IH]; cbn.
  - split; [constructor | reflexivity].
  - destruct (f x) eqn:Hfx.
    + split; [discriminate|]. inversion 1; congruence.
    + rewrite IH. split; [by constructor | by inversion 1].
Qed.

(** C9, as the claim states it, fails: a director response that is a bare
    image is not written out as it is; unwrapping it throws. *)
Lemma director_no_raw_fallback :
  director_output raw_png_response = Throw (LibraryError "adm-zip")
  ∧ director_output raw_png_response ≠ Ok (bytes raw_png_response).
Proof. split; [reflexivity | discriminate]. Qed.

(** C9, amended.  The director branch unwraps its response with
    [extractPng], exactly as the generation branches do, and has no
    fallback to the raw bytes: it yields the data of the first archive
    entry named [*.png]; "No PNG found" is thrown exactly when the
    response is an archive without such an entry; and a response that is
    not an archive fails inside the archive library. *)
Theorem director_unwraps_archive_only (response : Buffer) :
  director_output response = extractPng response
  ∧ (∀ pngData, director_output response = Ok pngData ↔
       ∃ entries png,
         getEntries response = Some entries
         ∧ List.find (λ e, endsWith (entryName e) ".png") entries = Some png
         ∧ pngData = getData png)
  ∧ (director_output response = Throw NoPngFound ↔
       ∃ entries,
         getEntries response = Some entries
         ∧ Forall (λ e, endsWith (entryName e) ".png" = false) entries)
  ∧ (getEntries response = None →
       director_output response = Throw (LibraryError "adm-zip")).
Proof.
  assert (Heq : director_output response = extractPng response).
  { unfold director_output. destruct (extractPng response); reflexivity. }
  split; [exact Heq|]. rewrite Heq. unfold extractPng.
  destruct (getEntries response) as [entries|].
  - destruct (List.find _ entries) as [png|] eqn:Hfind.
    + split; [|split].
      * intros pngData. split.
        -- intros [= <-]. by exists entries, png.
        -- intros (? & ? & [= <-] & Hf & ->). congruence.
      * split; [discriminate|].
        intros (? & [= <-] & Hall). apply find_none_forall in Hall. congruence.
      * discriminate.
    + split; [|split].
      * intros pngData. split; [discriminate|].
        intros (? & ? & [= <-] & Hf & _). congruence.
      * split; [|done]. intros _. exists entries.
        split; [done|]. by apply find_none_forall.
      * discriminate.
  - split; [|split].
    + intros pngData. split; [discriminate|]. intros (? & ? & [=] & _).
    + split; [discriminate|]. intros (? & [=] & _).
    + done.
Qed.

End TransportFacts.

(** ** Detection translation *)

Module AnalyzeFacts.
Import Analyze.
#[local] Open Scope float_scope.



Definition face : Detection :=
  {| label := Some "face"; box_2d := Some [0; 0; 1000; 1000]; issue := None |}.



Example full_box_translation :
  (regions_of 832 1216 [face]).1
  = Ok [ {| px := 0; py := 0; pw := 832; ph := 1216 |} ].
Proof. vm_compute. reflexivity. Qed.





End AnalyzeFacts.

(** ** Mask synthesis *)

Module MaskFacts.
Import Mask.
#[local] Open Scope Z_scope.

(** The canvas size [createMask] works on. *)
Definition canvas_of (o : opts.t) (meta : Canvas.Metadata)
    : JS.number * JS.number :=
  if JS.truthy (opts.image o)
  then (Canvas.width meta, Canvas.height meta)
  else (opts.width o, opts.height o).

(** Some component among the four of a region string is NaN (a missing
    component counts). *)
Definition has_nan (regionStr : string) : Prop :=
  ∃ i, (i < 4)%nat ∧ JS.isNaN (parts regionStr !! i) = true.

(** A rectangle in pixel space. *)
Record Rect := { x : Z; y : Z; width : Z; height : Z }.

(** The rectangle a region string denotes, when its four components are
    integers and its size is positive. *)
Definition rect_of (regionStr : string) : option Rect :=
  match JS.to_Z <$> parts regionStr with
  | Some x :: Some y :: Some w :: Some h :: _ =>
      if (0 <? w) && (0 <? h)
      then Some {| x := x; y := y; width := w; height := h |}
      else None
  | _ => None
  end.

Definition covers (px py : Z) (r : Rect) : bool :=
  (x r <=? px) && (px <? x r + width r) && (y r <=? py) && (py <? y r + height r).

Definition inside (w h px py : Z) : bool :=
  (0 <=? px) && (px <? w) && (0 <=? py) && (py <? h).

(** The raster library draws [r] on a [w]×[h] image: it is no wider and
    no taller than the image. *)
Definition fits (w h : Z) (r : Rect) : Prop := width r <= w ∧ height r <= h.

(** A canvas of one colour. *)
Definition blank (w h : Z) (c : Raster.rgb) : Raster.Image :=
  {| Raster.width := w; Raster.height := h; Raster.px := λ _ _, c |}.

(** Painting rectangles solid white, one after the other. *)
Definition painted (rects : list Rect) (base : Raster.Image) : Raster.Image :=
  fold_left
    (λ img r, Raster.paint img (blank (width r) (height r) Raster.white) (x r) (y r))
    rects base.

(** The optional final negation. *)
Definition finish (invert : bool) (img : Raster.Image) : Raster.Image :=
  if invert then Raster.negate img else img.

Definition shade (invert : bool) (c : Raster.rgb) : Raster.rgb :=
  if invert then Raster.negate_rgb c else c.

Lemma to_Z_is_number (v : JS.number) (z : Z) :
  JS.to_Z v = Some z → is_nan v = false.
Proof.
  intros Hz. apply not_true_iff_false. rewrite FloatFacts.is_nan_Prim2SF.
  unfold JS.to_Z in Hz. by destruct (Prim2SF v).
Qed.

Lemma create_ok (w h : JS.number) (wz hz : Z) (c : Raster.rgb) :
  JS.to_Z w = Some wz → JS.to_Z h = Some hz → 0 < wz → 0 < hz →
  Raster.create w h c = Ok (blank wz hz c).
Proof.
  intros Hw Hh Hwz Hhz. unfold Raster.create. rewrite Hw, Hh.
  by rewrite (proj2 (Z.ltb_lt 0 wz) Hwz), (proj2 (Z.ltb_lt 0 hz) Hhz).
Qed.

Lemma create_throws (w h : JS.number) (c : Raster.rgb) (e : Exception) :
  Raster.create w h c = Throw e → e = LibraryError "sharp".
Proof.
  unfold Raster.create.
  destruct (JS.to_Z w) as [wz|], (JS.to_Z h) as [hz|];
    try destruct ((0 <? wz) && (0 <? hz)); congruence.
Qed.

Lemma guard_has_nan (regionStr : string) :
  existsb JS.isNaN
    [parts regionStr !! 0%nat; parts regionStr !! 1%nat;
     parts regionStr !! 2%nat; parts regionStr !! 3%nat] = true
  ↔ has_nan regionStr.
Proof.
  unfold has_nan. generalize (parts regionStr). intros ps.
  rewrite existsb_exists. split.
  - intros (v & Hin & Hv). cbn [In] in Hin.
    destruct Hin as [<-|[<-|[<-|[<-|[]]]]]; eexists; (split; [|exact Hv]); lia.
  - intros (i & Hi & Hv). exists (ps !! i). split; [|done].
    destruct i as [|[|[|[|i]]]]; cbn [In]; auto; lia.
Qed.

Lemma overlay_of_guard (regionStr : string) :
  (has_nan regionStr → overlay_of regionStr = Throw (InvalidRegion regionStr))
  ∧ (¬ has_nan regionStr → ∀ s, overlay_of regionStr ≠ Throw (InvalidRegion s)).
Proof.
  rewrite <- guard_has_nan. unfold overlay_of.
  destruct (existsb _ _); split; try done.
  intros _ s. unfold mbind, result_bind.
  destruct (Raster.create _ _ _) as [rect|e] eqn:Hcreate; [done|].
  apply create_throws in Hcreate as ->. done.
Qed.

(** What [overlay_of] pushes for a region string denoting [r]. *)
Definition overlay_for (r : Rect) (ov : Raster.Overlay) : Prop :=
  Raster.input ov = blank (width r) (height r) Raster.white
  ∧ JS.to_Z (Raster.left ov) = Some (x r)
  ∧ JS.to_Z (Raster.top ov) = Some (y r).

Lemma overlay_of_rect (regionStr : string) (r : Rect) :
  rect_of regionStr = Some r →
  ∃ ov, overlay_of regionStr = Ok ov ∧ overlay_for r ov.
Proof.
  unfold rect_of, overlay_of. generalize (parts regionStr). intros ps Hr.
  destruct ps as [|rx [|ry [|rw [|rh rest]]]]; cbn [fmap list_fmap] in Hr;
    try (repeat case_match; done).
  destruct (JS.to_Z rx) as [xz|] eqn:Hx; [|done].
  destruct (JS.to_Z ry) as [yz|] eqn:Hy; [|done].
  destruct (JS.to_Z rw) as [wz|] eqn:Hw; [|done].
  destruct (JS.to_Z rh) as [hz|] eqn:Hh; [|done].
  destruct ((0 <? wz) && (0 <? hz)) eqn:Hpos; [|done].
  injection Hr as <-. apply andb_prop in Hpos as [Hwz%Z.ltb_lt Hhz%Z.ltb_lt].
  cbn [lookup list_lookup existsb JS.isNaN JS.ToNumber].
  rewrite (to_Z_is_number _ _ Hx), (to_Z_is_number _ _ Hy),
    (to_Z_is_number _ _ Hw), (to_Z_is_number _ _ Hh). cbn [orb].
  rewrite (create_ok rw rh wz hz Raster.white Hw Hh Hwz Hhz).
  eexists. split; [reflexivity|]. by repeat split.
Qed.

Lemma overlays_of_rects (regions : list string) (rects : list Rect) :
  mapM rect_of regions = Some rects →
  ∃ ovs, overlays_of regions = Ok ovs ∧ Forall2 overlay_for rects ovs.
Proof.
  rewrite mapM_Some. induction 1 as [|regionStr r regions rects Hr _ IH].
  - exists []. split; [reflexivity|constructor].
  - destruct (overlay_of_rect _ _ Hr) as (ov & Hov & Hfor).
    destruct IH as (ovs & Hovs & Hall).
    exists (ov :: ovs). cbn [overlays_of]. rewrite Hov, Hovs.
    split; [reflexivity|by constructor].
Qed.

Lemma paint_size (base ov : Raster.Image) (l t : Z) :
  Raster.width (Raster.paint base ov l t) = Raster.width base
  ∧ Raster.height (Raster.paint base ov l t) = Raster.height base.
Proof. done. Qed.

Lemma composite_painted (rects : list Rect) (ovs : list Raster.Overlay) :
  Forall2 overlay_for rects ovs →
  ∀ base,
    Forall (fits (Raster.width base) (Raster.height base)) rects →
    Raster.composite base ovs = Ok (painted rects base).
Proof.
  induction 1 as [|r ov rects ovs (Hin & Hl & Ht) _ IH]; intros base Hfits.
  - reflexivity.
  - inversion_clear Hfits as [|? ? [Hw Hh] Hrest].
    cbn [Raster.composite]. rewrite Hl, Ht, Hin. cbn [Raster.width Raster.height blank].
    rewrite (proj2 (Z.leb_le _ _) Hw), (proj2 (Z.leb_le _ _) Hh).
    cbn [andb]. apply IH. exact Hrest.
Qed.

Lemma painted_size (rects : list Rect) (base : Raster.Image) :
  Raster.width (painted rects base) = Raster.width base
  ∧ Raster.height (painted rects base) = Raster.height base.
Proof.
  revert base. induction rects as [|r rects IH]; intros base; [done|].
  unfold painted in *. cbn [fold_left]. by rewrite !(proj1 (IH _)), !(proj2 (IH _)).
Qed.

Lemma painted_px (rects : list Rect) (base : Raster.Image) (px py : Z) :
  Raster.px (painted rects base) px py
  = if existsb (covers px py) rects then Raster.white
    else Raster.px base px py.
Proof.
  revert base. induction rects as [|r rects IH]; intros base; [done|].
  unfold painted in *. cbn [fold_left existsb]. rewrite IH.
  destruct (existsb (covers px py) rects); [by rewrite orb_true_r|].
  rewrite orb_false_r. unfold covers. cbn.
  by destruct ((x r <=? px) && (px <? x r + width r) && (y r <=? py)
               && (py <? y r + height r)).
Qed.

Lemma pixelAt_finish (invert : bool) (img : Raster.Image) (px py : Z) :
  Raster.pixelAt (finish invert img) px py
  = shade invert <$> Raster.pixelAt img px py.
Proof.
  unfold Raster.pixelAt, finish, shade. destruct invert; cbn;
    by destruct ((0 <=? px) && (px <? Raster.width img) && (0 <=? py)
                 && (py <? Raster.height img)).
Qed.

(** C6.  On a [w]×[h] canvas: with no region the mask is white
    everywhere (black when inverted); with regions (each four integers
    with a positive size, no wider and no taller than the canvas) the
    mask is the black [w]×[h] canvas on which the rectangles were painted
    white in listed order, so a pixel is white exactly when some rectangle
    covers it; and with [--invert-mask] the negation is the last step:
    then a pixel is black exactly when some rectangle covers it, and
    white otherwise. *)
Theorem mask_synthesis (o : opts.t) (meta : Canvas.Metadata) (w h : Z) :
  JS.to_Z (canvas_of o meta).1 = Some w →
  JS.to_Z (canvas_of o meta).2 = Some h →
  0 < w → 0 < h →
  (opts.regions o = [] →
     ∃ mask,
       createMask o meta = Ok mask
       ∧ Raster.width mask = w ∧ Raster.height mask = h
       ∧ ∀ px py,
           Raster.pixelAt mask px py
           = if inside w h px py
             then Some (if opts.invertMask o
                        then Raster.black else Raster.white)
             else None)
  ∧ (∀ rects,
       opts.regions o ≠ [] →
       mapM rect_of (opts.regions o) = Some rects →
       Forall (fits w h) rects →
       ∃ mask,
         createMask o meta = Ok mask
         ∧ Raster.width mask = w ∧ Raster.height mask = h
         ∧ mask = finish (opts.invertMask o)
                    (painted rects (blank w h Raster.black))
         ∧ ∀ px py,
             Raster.pixelAt mask px py
             = if inside w h px py
               then Some (if xorb (existsb (covers px py) rects)
                                  (opts.invertMask o)
                          then Raster.white else Raster.black)
               else None).
Proof.
  intros Hw Hh Hwpos Hhpos.
  unfold createMask, canvas_of in *.
  destruct (if JS.truthy (opts.image o) then _ else _) as [wf hf].
  cbn [fst snd] in Hw, Hh.
  rewrite !(create_ok wf hf w h _ Hw Hh Hwpos Hhpos).
  unfold mbind, result_bind. split.
  - intros ->. cbn [length Nat.ltb Nat.leb].
    exists (finish (opts.invertMask o) (blank w h Raster.white)). split.
    + unfold finish. by destruct (opts.invertMask o).
    + split; [by destruct (opts.invertMask o)|].
      split; [by destruct (opts.invertMask o)|].
      intros px py. rewrite pixelAt_finish. unfold Raster.pixelAt, inside.
      cbn [blank Raster.width Raster.height Raster.px].
      destruct ((0 <=? px) && (px <? w) && (0 <=? py) && (py <? h)); [|done].
      by destruct (opts.invertMask o).
  - intros rects Hne Hrects Hfits.
    destruct (overlays_of_rects _ _ Hrects) as (ovs & Hovs & Hall).
    rewrite Hovs, (composite_painted _ _ Hall) by exact Hfits.
    destruct (opts.regions o) as [|regionStr rest]; [done|].
    cbn [length Nat.ltb Nat.leb].
    exists (finish (opts.invertMask o) (painted rects (blank w h Raster.black))).
    split; [unfold finish; by destruct (opts.invertMask o)|].
    assert (Hsize : Raster.width (finish (opts.invertMask o)
                       (painted rects (blank w h Raster.black))) = w
                    ∧ Raster.height (finish (opts.invertMask o)
                         (painted rects (blank w h Raster.black))) = h).
    { destruct (painted_size rects (blank w h Raster.black)) as [Hpw Hph].
      destruct (opts.invertMask o); cbn [finish Raster.negate Raster.width
        Raster.height]; by rewrite Hpw, Hph. }
    split; [exact (proj1 Hsize)|]. split; [exact (proj2 Hsize)|].
    split; [reflexivity|].
    intros px py. rewrite pixelAt_finish. unfold Raster.pixelAt, inside.
    rewrite (proj1 (painted_size _ _)), (proj2 (painted_size _ _)).
    cbn [blank Raster.width Raster.height].
    destruct ((0 <=? px) && (px <? w) && (0 <=? py) && (py <? h)); [|done].
    cbn [fmap option_fmap option_map]. rewrite painted_px.
    cbn [blank Raster.px].
    by destruct (existsb (covers px py) rects), (opts.invertMask o).
Qed.

Definition mask_args : list string :=
  ["mask"; "--width"; "4"; "--height"; "3";
   "--region"; "1,1,2,2"; "--region"; "0,0,1,1"; "--invert-mask"].

Lemma mask_synthesis_witness :
  let o := Cli.parseArgs mask_args in
  let rects := [ {| x := 1; y := 1; width := 2; height := 2 |};
                 {| x := 0; y := 0; width := 1; height := 1 |} ] in
  ∃ mask,
    createMask o (CanvasFacts.image 0%float 0%float) = Ok mask
    ∧ Raster.width mask = 4 ∧ Raster.height mask = 3
    ∧ mask = finish true (painted rects (blank 4 3 Raster.black))
    ∧ ∀ px py,
        Raster.pixelAt mask px py
        = if inside 4 3 px py
          then Some (if xorb (existsb (covers px py) rects) true
                     then Raster.white else Raster.black)
          else None.
Proof.
  refine (proj2 (mask_synthesis (Cli.parseArgs mask_args)
                   (CanvasFacts.image 0%float 0%float) 4 3 _ _ _ _) _ _ _ _).
  - vm_compute; reflexivity.
  - vm_compute; reflexivity.
  - reflexivity.
  - reflexivity.
  - vm_compute. discriminate.
  - vm_compute; reflexivity.
  - repeat constructor; cbn; lia.
Defined.

(** An inverted mask, pixel by pixel: the pixel under both rectangles'
    cover is black, one outside them is white. *)
Example inverted_mask_pixels :
  let rects := [ {| x := 1; y := 1; width := 2; height := 2 |};
                 {| x := 0; y := 0; width := 1; height := 1 |} ] in
  let mask := finish true (painted rects (blank 4 3 Raster.black)) in
  Raster.pixelAt mask 1 1 = Some Raster.black
  ∧ Raster.pixelAt mask 0 0 = Some Raster.black
  ∧ Raster.pixelAt mask 3 0 = Some Raster.white
  ∧ Raster.pixelAt mask 4 0 = None.
Proof. repeat split; reflexivity. Qed.

(** A rectangle wider than the canvas is not painted: the raster
    library refuses it and no mask is written. *)
Example oversize_rectangle_refused :
  createMask (Cli.parseArgs ["mask"; "--width"; "8"; "--height"; "8";
                             "--region"; "0,0,9,2"])
    (CanvasFacts.image 0%float 0%float)
  = Throw (LibraryError "sharp").
Proof. vm_compute. reflexivity. Qed.

(** *** The invalid-region error *)

(** A region string that gets through the loop body: no component is NaN
    and the raster library accepts the size of the rectangle. *)
Definition passes (regionStr : string) : Prop :=
  ∃ ov, overlay_of regionStr = Ok ov.

Lemma overlay_of_invalid (regionStr s : string) :
  overlay_of regionStr = Throw (InvalidRegion s) ↔
  has_nan regionStr ∧ s = regionStr.
Proof.
  destruct (overlay_of_guard regionStr) as [Hyes Hno].
  rewrite <- guard_has_nan in *.
  destruct (existsb _ _) eqn:Hg.
  - rewrite Hyes by done. split; [by intros [= ->]|by intros [_ ->]].
  - split; [|by intros [[=] _]]. intros Hthrow. by destruct (Hno ltac:(done) s).
Qed.

Lemma overlays_of_invalid (regions : list string) (s : string) :
  overlays_of regions = Throw (InvalidRegion s) ↔
  ∃ before after,
    regions = before ++ s :: after ∧ has_nan s ∧ Forall passes before.
Proof.
  induction regions as [|regionStr rest IH]; cbn [overlays_of].
  - split; [done|]. intros (before & after & Heq & _). by destruct before.
  - unfold mbind, result_bind in *.
    destruct (overlay_of regionStr) as [ov|e] eqn:Hov.
    + destruct (overlays_of rest) as [ovs|e] eqn:Hrest.
      * split; [done|]. intros (before & after & Heq & Hnan & Hpass).
        destruct before as [|b before]; injection Heq as -> ->.
        -- pose proof (proj1 (overlay_of_guard s) Hnan). congruence.
        -- inversion_clear Hpass.
           assert (Ok ovs = Throw (InvalidRegion s)) as [=].
           apply IH. eauto.
      * split.
        -- intros [= ->]. destruct (proj1 IH eq_refl)
             as (before & after & -> & Hnan & Hpass).
           exists (regionStr :: before), after.
           split; [done|]. split; [done|]. constructor; [by exists ov|done].
        -- intros (before & after & Heq & Hnan & Hpass).
           destruct before as [|b before]; injection Heq as -> ->.
           ++ pose proof (proj1 (overlay_of_guard s) Hnan). congruence.
           ++ inversion_clear Hpass. apply IH. eauto.
    + split.
      * intros [= ->]. apply overlay_of_invalid in Hov as [Hnan ->].
        exists [], rest. split; [done|]. split; [done|constructor].
      * intros (before & after & Heq & Hnan & Hpass).
        destruct before as [|b before]; injection Heq as -> ->.
        -- pose proof (proj1 (overlay_of_guard s) Hnan). congruence.
        -- inversion_clear Hpass as [|? ? [ov Hok] _]. congruence.
Qed.

(** The raster library accepts the size of the rectangle: width and
    height are positive integers. *)
Definition sized (regionStr : string) : Prop :=
  ∃ wz hz,
    JS.to_Z (JS.ToNumber (parts regionStr !! 2%nat)) = Some wz
    ∧ JS.to_Z (JS.ToNumber (parts regionStr !! 3%nat)) = Some hz
    ∧ 0 < wz ∧ 0 < hz.

Lemma create_ok_iff (w h : JS.number) (c : Raster.rgb) :
  (∃ img, Raster.create w h c = Ok img) ↔
  ∃ wz hz, JS.to_Z w = Some wz ∧ JS.to_Z h = Some hz ∧ 0 < wz ∧ 0 < hz.
Proof.
  split.
  - intros [img Hc]. unfold Raster.create in Hc.
    destruct (JS.to_Z w) as [wz|], (JS.to_Z h) as [hz|]; try done.
    destruct ((0 <? wz) && (0 <? hz)) eqn:Hpos; [|done].
    apply andb_prop in Hpos as [?%Z.ltb_lt ?%Z.ltb_lt]. by exists wz, hz.
  - intros (wz & hz & Hw & Hh & Hwz & Hhz). eexists. by apply create_ok.
Qed.

Lemma passes_iff (regionStr : string) :
  passes regionStr ↔ ¬ has_nan regionStr ∧ sized regionStr.
Proof.
  unfold passes, sized. rewrite <- create_ok_iff with (c := Raster.white).
  rewrite <- guard_has_nan. unfold overlay_of, mbind, result_bind.
  destruct (existsb _ _).
  - split; [by intros [? [=]]|by intros [[] _]].
  - destruct (Raster.create _ _ _) as [rect|e].
    + split; [|by eexists]. intros _. split; [done|by eexists].
    + split; [by intros [? [=]]|by intros [_ [? [=]]]].
Qed.

Lemma composite_throws (ovs : list Raster.Overlay) (base : Raster.Image)
    (e : Exception) :
  Raster.composite base ovs = Throw e → e = LibraryError "sharp".
Proof.
  revert base. induction ovs as [|ov ovs IH]; intros base; cbn; [done|].
  destruct (JS.to_Z (Raster.left ov)), (JS.to_Z (Raster.top ov));
    try (by intros [= <-]).
  destruct (_ && _); [apply IH|by intros [= <-]].
Qed.

(** C7, as the claim states it, fails: a rectangle of negative width is
    not reported as an invalid region.  The guard of [createMask] looks
    for NaN only; the rectangle goes on to the raster library, which
    refuses it with an error of its own. *)
Lemma negative_width_not_invalid_region :
  let o := Cli.parseArgs ["mask"; "--region"; "10,10,-5,20"] in
  (JS.Number "-5" <? 0)%float = true
  ∧ createMask o (CanvasFacts.image 0%float 0%float)
    = Throw (LibraryError "sharp")
  ∧ ∀ s, createMask o (CanvasFacts.image 0%float 0%float)
         ≠ Throw (InvalidRegion s).
Proof.
  cbv zeta.
  assert (H : createMask (Cli.parseArgs ["mask"; "--region"; "10,10,-5,20"])
                (CanvasFacts.image 0%float 0%float)
              = Throw (LibraryError "sharp")) by (vm_compute; reflexivity).
  split; [vm_compute; reflexivity|]. split; [exact H|].
  intros s. rewrite H. discriminate.
Qed.

(** C7, amended.  On a valid canvas, [createMask] fails with the
    invalid-region error for [s] exactly when [s] is a listed rectangle
    with a component that parses to NaN (a missing component included)
    and every rectangle listed before it got through (no NaN, positive
    integral width and height).  A negative width or height is not
    checked by [createMask].  For a list free of NaN the error is never
    raised. *)
Theorem invalid_region_iff_nan (o : opts.t) (meta : Canvas.Metadata)
    (w h : Z) :
  JS.to_Z (canvas_of o meta).1 = Some w →
  JS.to_Z (canvas_of o meta).2 = Some h →
  0 < w → 0 < h →
  (∀ s, createMask o meta = Throw (InvalidRegion s) ↔
        ∃ before after,
          opts.regions o = before ++ s :: after
          ∧ has_nan s
          ∧ Forall (λ r, ¬ has_nan r ∧ sized r) before)
  ∧ (Forall (λ r, ¬ has_nan r) (opts.regions o) →
     ∀ s, createMask o meta ≠ Throw (InvalidRegion s)).
Proof.
  intros Hw Hh Hwpos Hhpos.
  assert (Hiff : ∀ s, createMask o meta = Throw (InvalidRegion s) ↔
            ∃ before after,
              opts.regions o = before ++ s :: after
              ∧ has_nan s
              ∧ Forall (λ r, ¬ has_nan r ∧ sized r) before).
  { intros s.
    assert (Hpass : ∀ l, Forall passes l
                         ↔ Forall (λ r, ¬ has_nan r ∧ sized r) l)
      by (intros l; apply Forall_iff, passes_iff).
    setoid_rewrite <- Hpass.
    rewrite <- overlays_of_invalid.
    unfold createMask, canvas_of in *.
    destruct (if JS.truthy (opts.image o) then _ else _) as [wf hf].
    cbn [fst snd] in Hw, Hh.
    rewrite !(create_ok wf hf w h _ Hw Hh Hwpos Hhpos).
    unfold mbind, result_bind.
    destruct (opts.regions o) as [|regionStr rest] eqn:Hregions.
    - cbn. by destruct (opts.invertMask o).
    - cbn [length Nat.ltb Nat.leb].
      destruct (overlays_of (regionStr :: rest)) as [ovs|e];
        [|split; congruence].
      destruct (Raster.composite _ ovs) as [mask|e] eqn:Hcomp.
      + by destruct (opts.invertMask o).
      + apply composite_throws in Hcomp as ->. done. }
  split; [exact Hiff|].
  intros Hall s (before & after & Heq & Hnan & _)%Hiff.
  rewrite Heq in Hall. apply Forall_app in Hall as [_ Hall].
  by inversion_clear Hall.
Qed.

Lemma invalid_region_iff_nan_witness :
  let o := Cli.parseArgs ["mask"; "--width"; "64"; "--height"; "64";
                          "--region"; "0,0,8,8"; "--region"; "10,x,5,5"] in
  createMask o (CanvasFacts.image 0%float 0%float)
  = Throw (InvalidRegion "10,x,5,5").
Proof.
  refine (proj2 (proj1 (invalid_region_iff_nan
            (Cli.parseArgs ["mask"; "--width"; "64"; "--height"; "64";
                            "--region"; "0,0,8,8"; "--region"; "10,x,5,5"])
            (CanvasFacts.image 0%float 0%float) 64 64 _ _ _ _) "10,x,5,5") _).
  - vm_compute; reflexivity.
  - vm_compute; reflexivity.
  - reflexivity.
  - reflexivity.
  - exists ["0,0,8,8"], []. split; [vm_compute; reflexivity|]. split.
    + exists 1%nat. split; [lia|vm_compute; reflexivity].
    + constructor; [|constructor]. split.
      * intros (i & Hi & Hnan).
        destruct i as [|[|[|[|i]]]]; [vm_compute in Hnan; discriminate..|lia].
      * exists 8, 8. repeat split; vm_compute; reflexivity.
Defined.

End MaskFacts.

(** ** Canvas selection on any metadata *)

Module CanvasExtras.
Import Canvas FloatFacts CanvasFacts.
#[local] Open Scope float_scope.

Lemma loop_picks_listed (aspect : JS.number) (l : list Resolution) :
  ∀ st, (fold_left (step aspect) l st).1 ∈ st.1 :: l.
Proof.
  induction l as [|res l IH]; intros st; cbn [fold_left].
  - by left.
  - specialize (IH (step aspect st res)). unfold step in *.
    destruct (diff aspect res <? st.2).
    + cbn [fst] in IH. by right.
    + apply elem_of_cons in IH as [->|Hin]; [by left|by do 2 right].
Qed.

(** X20.  Whatever the metadata of the reference image (zero, negative,
    infinite or NaN sizes included), the canvas it is fitted to is one
    of the three entries of [LARGE_RESOLUTIONS]. *)
Theorem canvas_always_from_table (meta : Metadata) :
  prepareReferenceImage_best meta ∈ LARGE_RESOLUTIONS.
Proof.
  unfold prepareReferenceImage_best, select.
  set (aspect := width meta / height meta).
  pose proof (loop_picks_listed aspect LARGE_RESOLUTIONS
                ({| w := 1024; h := 1536; label := "portrait" |}, infinity))
    as Hin.
  cbn [fst] in Hin. apply elem_of_cons in Hin as [Heq|Hin]; [|exact Hin].
  cbv zeta. cbn [LARGE_RESOLUTIONS] in *. rewrite Heq. by left.
Qed.

Lemma div_by_zero_or_nan (x y : float) :
  (y =? 0) = true ∨ is_nan x = true ∨ is_nan y = true →
  x / y = nan ∨ x / y = infinity ∨ x / y = neg_infinity.
Proof.
  intros Hcase.
  assert (Hsf : Prim2SF (x / y) = S754_nan
                ∨ ∃ s, Prim2SF (x / y) = S754_infinity s).
  { rewrite FloatAxioms.div_spec.
    destruct Hcase as [Hy|[Hx|Hy]].
    - rewrite FloatAxioms.eqb_spec in Hy.
      change (Prim2SF 0) with (S754_zero false) in Hy.
      destruct (Prim2SF y) as [sy|sy| |sy my ey]; cbn in Hy;
        try done; try (by destruct sy);
        destruct (Prim2SF x) as [sx|sx| |sx mx ex]; cbn; eauto.
    - apply is_nan_Prim2SF in Hx. rewrite Hx. by left.
    - apply is_nan_Prim2SF in Hy. rewrite Hy. left.
      by destruct (Prim2SF x). }
  rewrite <- (FloatAxioms.SF2Prim_Prim2SF (x / y)).
  destruct Hsf as [->|[[] ->]]; auto.
Qed.

(** X21.  An image whose metadata gives no usable aspect ratio (height
    zero, or a width or height that is not a number) is fitted to the
    portrait canvas, the first entry of the table: no candidate's
    difference is below the initial [Infinity]. *)
Theorem degenerate_image_gets_portrait (meta : Metadata) :
  (height meta =? 0) = true
  ∨ is_nan (width meta) = true
  ∨ is_nan (height meta) = true →
  prepareReferenceImage_best meta
  = {| w := 1024; h := 1536; label := "portrait" |}.
Proof.
  intros Hcase%div_by_zero_or_nan. unfold prepareReferenceImage_best.
  destruct Hcase as [->|[->| ->]]; vm_compute; reflexivity.
Qed.

Lemma degenerate_image_gets_portrait_witness :
  prepareReferenceImage_best (image 1536 0)
  = {| w := 1024; h := 1536; label := "portrait" |}.
Proof.
  apply (degenerate_image_gets_portrait (image 1536 0)). left. reflexivity.
Defined.

End CanvasExtras.

(** ** Payload assembly, further properties *)

Module PayloadExtras.
Import Payload PayloadFacts.
#[local] Open Scope float_scope.

(** X1.  A builder only ever writes its own properties: every other
    property of the payload is the one [baseParams] made, and no base
    property is ever removed. *)
Theorem builders_keep_base (o : opts.t) (req : Request) (random : JS.number) :
  (∀ k, k ∉ written req →
        param k (build o req random) = baseParams o random !! k)
  ∧ (∀ k, is_Some (baseParams o random !! k) →
          is_Some (param k (build o req random))).
Proof.
  split; [intros k; apply build_frame|].
  intros k Hk. destruct (decide (k ∈ written req)) as [Hin|Hout];
    [|by rewrite build_frame].
  destruct req as [refB|vibes|img iw ih|img msk]; cbn [written] in Hin;
    rewrite !elem_of_cons, elem_of_nil in Hin.
  - destruct Hin as [->|[->|[->|[->|[->|[]]]]]]; by destruct Hk.
  - destruct Hin as [->|[->|[->|[]]]]; by destruct Hk.
  - destruct (enhance_written o random img iw ih) as (Hw & Hh & _).
    cbn [build].
    destruct Hin as [->|[->|[->|[->|[->|[->|[]]]]]]];
      [by rewrite Hw|by rewrite Hh|by destruct Hk..].
  - destruct Hin as [->|[->|[->|[->|[]]]]]; by destruct Hk.
Qed.

(** X2.  Without a reference image ([null], or an empty string) the
    generate payload is the base object itself: none of the five
    [director_reference_*] arrays is present, not even as an empty
    array. *)
Theorem no_reference_no_arrays (o : opts.t) (refBase64 : option string)
    (random : JS.number) :
  JS.truthy refBase64 = false →
  parameters (buildGeneratePayload o refBase64 random) = baseParams o random
  ∧ ∀ k, k ∈ director_reference_arrays →
         param k (buildGeneratePayload o refBase64 random) = None.
Proof.
  intros Href.
  assert (Heq : parameters (buildGeneratePayload o refBase64 random)
                = baseParams o random).
  { unfold buildGeneratePayload. cbn [parameters]. by rewrite Href. }
  split; [exact Heq|]. intros k. unfold param. rewrite Heq.
  unfold director_reference_arrays. rewrite !elem_of_cons, elem_of_nil.
  intros [->|[->|[->|[->|[->|[]]]]]]; reflexivity.
Qed.

Lemma no_reference_no_arrays_witness :
  let o := Cli.parseArgs ["--prompt"; "1girl, solo"] in
  parameters (buildGeneratePayload o (Some "") 0.5) = baseParams o 0.5
  ∧ ∀ k, k ∈ director_reference_arrays →
         param k (buildGeneratePayload o (Some "") 0.5) = None.
Proof.
  exact (no_reference_no_arrays (Cli.parseArgs ["--prompt"; "1girl, solo"])
           (Some "") 0.5 eq_refl).
Defined.

Lemma base_sm_flags (o : opts.t) (random : JS.number) :
  baseParams o random !! "sm" = Some (VBool (opts.smea o))
  ∧ baseParams o random !! "sm_dyn"
    = Some (VBool (opts.smeaDyn o
                   || (opts.autoSmea o
                       && (1048576 <? opts.width o * opts.height o)
                       && negb (opts.smea o)))).
Proof.
  split; [reflexivity|]. unfold baseParams.
  change (1024 * 1024) with 1048576.
  destruct (opts.smeaDyn o), (opts.autoSmea o), (opts.smea o),
    (1048576 <? opts.width o * opts.height o); reflexivity.
Qed.

(** X3.  In every payload kind, [sm] is the caller's [--smea] flag and
    [sm_dyn] is [--smea-dyn], or else the automatic choice, which needs
    auto-selection on, no [--smea], and [opts.width * opts.height] above
    1048576.  The product is that of the command-line width and height:
    the geometry an enhance payload takes from the image, or from the
    upscale factor, plays no part. *)
Theorem sm_flags_of_every_payload (o : opts.t) (req : Request)
    (random : JS.number) :
  param "sm" (build o req random) = Some (VBool (opts.smea o))
  ∧ param "sm_dyn" (build o req random)
    = Some (VBool (opts.smeaDyn o
                   || (opts.autoSmea o
                       && (1048576 <? opts.width o * opts.height o)
                       && negb (opts.smea o)))).
Proof.
  rewrite !build_frame by (destruct req; not_written).
  apply base_sm_flags.
Qed.

(** The defaults enhance a decoded 1472 × 1472 image at twice its size:
    the payload is 2944 × 2944 and [sm_dyn] stays off. *)
Example enhance_large_image_sm_dyn :
  let o := Cli.parseArgs ["enhance"; "--image"; "big.png"; "--upscale"; "2"] in
  let p := buildEnhancePayload o "aW1n" 1472 1472 0.5 in
  param "width" p = Some (VNum 2944) ∧ param "sm_dyn" p = Some (VBool false).
Proof. split; vm_compute; reflexivity. Qed.

(** X4.  The inpaint payload carries the command-line width and height
    (832 × 1216 unless given), whatever the size of the source image; its
    [image], [mask] and [strength] are the two encoded files and
    [--inpaint-strength]. *)
Theorem inpaint_payload_fields (o : opts.t) (random : JS.number)
    (imageBase64 maskBase64 : string) :
  let p := buildInpaintPayload o imageBase64 maskBase64 random in
  param "width" p = Some (VNum (opts.width o))
  ∧ param "height" p = Some (VNum (opts.height o))
  ∧ param "image" p = Some (VStr imageBase64)
  ∧ param "mask" p = Some (VStr maskBase64)
  ∧ param "strength" p = Some (VNum (opts.inpaintStrength o))
  ∧ Payload.action p = "infill".
Proof.
  cbv zeta.
  pose proof (build_frame o (Inpaint imageBase64 maskBase64) random "width"
                ltac:(not_written)) as Hw.
  pose proof (build_frame o (Inpaint imageBase64 maskBase64) random "height"
                ltac:(not_written)) as Hh.
  cbn [build] in Hw, Hh. rewrite Hw, Hh.
  split; [reflexivity|]. split; [reflexivity|].
  unfold param, buildInpaintPayload. cbn [parameters Payload.action].
  abstract_base o random. by map_read.
Qed.

Lemma Math_min_le_r (a b : JS.number) :
  is_nan a = false → is_nan b = false → (JS.Math_min a b <=? b) = true.
Proof.
  intros Ha Hb. unfold JS.Math_min. rewrite Ha, Hb. cbn [orb].
  destruct (a <? b) eqn:Hab; [by apply FloatFacts.ltb_leb|].
  destruct (b <? a) eqn:Hba; [by apply FloatFacts.leb_refl|].
  destruct (get_sign a); [by apply FloatFacts.not_ltb_leb|].
  by apply FloatFacts.leb_refl.
Qed.

(** X5.  When [--magnitude] is a number and no [--enhance-noise] is
    given, the noise sent is at most 0.3, however large the magnitude;
    the strength, unless overridden, is the magnitude itself. *)
Theorem magnitude_noise_capped (o : opts.t) (random : JS.number)
    (imageBase64 : string) (imgWidth imgHeight magnitude : JS.number) :
  opts.magnitude o = Some magnitude →
  is_nan magnitude = false →
  opts.enhanceNoise o = None →
  let p := buildEnhancePayload o imageBase64 imgWidth imgHeight random in
  (∃ noise, param "noise" p = Some (VNum noise) ∧ (noise <=? 0.3) = true)
  ∧ (opts.enhanceStrength o = None →
     param "strength" p = Some (VNum magnitude)).
Proof.
  intros Hm Hnum Hnoise. cbv zeta.
  destruct (enhance_written o random imageBase64 imgWidth imgHeight)
    as (_ & _ & Hs & Hn & _).
  rewrite Hs, Hn, Hm, Hnoise. cbn [default fmap option_fmap option_map].
  split.
  - eexists. split; [reflexivity|]. apply Math_min_le_r; [|reflexivity].
    eapply FloatFacts.mul_finite_not_nan; [done|]. vm_compute. reflexivity.
  - by intros ->.
Qed.

Lemma magnitude_noise_capped_witness :
  let o := Cli.parseArgs ["enhance"; "--image"; "gen.png"; "--magnitude"; "5"] in
  let p := buildEnhancePayload o "aW1n" 832 1216 0.5 in
  (∃ noise, param "noise" p = Some (VNum noise) ∧ (noise <=? 0.3) = true)
  ∧ (opts.enhanceStrength o = None →
     param "strength" p = Some (VNum 5)).
Proof.
  refine (magnitude_noise_capped
            (Cli.parseArgs ["enhance"; "--image"; "gen.png"; "--magnitude"; "5"])
            0.5 "aW1n" 832 1216 5 _ _ _); vm_compute; reflexivity.
Defined.

(** X6.  Without a prompt ([opts.prompt] is [null]) the two places of
    the prompt differ: [input] is [null] while the caption holds the
    empty string. *)
Theorem missing_prompt_places_differ (o : opts.t) (req : Request)
    (random : JS.number) :
  opts.prompt o = None →
  let p := build o req random in
  prompt_flat p = VNull ∧ prompt_caption p = Some (VStr "").
Proof.
  intros Hprompt. cbv zeta. split.
  - unfold prompt_flat. destruct req; cbn; by rewrite Hprompt.
  - unfold prompt_caption. rewrite build_frame by (destruct req; not_written).
    unfold baseParams. rewrite Hprompt. reflexivity.
Qed.

Lemma missing_prompt_places_differ_witness :
  let o := Cli.parseArgs ["enhance"; "--image"; "gen.png"] in
  let p := build o (Enhance "aW1n" 832 1216) 0.5 in
  prompt_flat p = VNull ∧ prompt_caption p = Some (VStr "").
Proof.
  exact (missing_prompt_places_differ
           (Cli.parseArgs ["enhance"; "--image"; "gen.png"])
           (Enhance "aW1n" 832 1216) 0.5 eq_refl).
Defined.

End PayloadExtras.

(** ** Mask synthesis, further properties *)

Module MaskExtras.
Import Mask MaskFacts.
#[local] Open Scope Z_scope.

Lemma create_inv (w h : JS.number) (c : Raster.rgb) (img : Raster.Image) :
  Raster.create w h c = Ok img →
  ∃ wz hz,
    JS.to_Z w = Some wz ∧ JS.to_Z h = Some hz ∧ 0 < wz ∧ 0 < hz
    ∧ img = blank wz hz c.
Proof.
  unfold Raster.create.
  destruct (JS.to_Z w) as [wz|], (JS.to_Z h) as [hz|]; try done.
  destruct ((0 <? wz) && (0 <? hz)) eqn:Hpos; [|done].
  apply andb_prop in Hpos as [?%Z.ltb_lt ?%Z.ltb_lt].
  intros [= <-]. by exists wz, hz.
Qed.

(** An overlay that [createMask] pushed and the raster library could
    place comes from a region string denoting a rectangle. *)
Lemma overlay_of_inv (regionStr : string) (ov : Raster.Overlay) (l t : Z) :
  overlay_of regionStr = Ok ov →
  JS.to_Z (Raster.left ov) = Some l →
  JS.to_Z (Raster.top ov) = Some t →
  ∃ r, rect_of regionStr = Some r ∧ overlay_for r ov.
Proof.
  unfold overlay_of, rect_of. generalize (parts regionStr). intros ps.
  destruct ps as [|rx [|ry [|rw [|rh rest]]]];
    cbn [lookup list_lookup existsb JS.isNaN orb]; rewrite ?orb_true_r;
    try done.
  destruct (_ || _); [done|]. unfold mbind, result_bind.
  destruct (Raster.create _ _ _) as [rect|e] eqn:Hcreate; [|done].
  apply create_inv in Hcreate as (wz & hz & Hw & Hh & Hwz & Hhz & ->).
  cbn [JS.ToNumber] in *. intros [= <-]. cbn [Raster.left Raster.top].
  intros Hx Hy. cbn [fmap list_fmap]. rewrite Hx, Hy, Hw, Hh.
  rewrite (proj2 (Z.ltb_lt 0 wz) Hwz), (proj2 (Z.ltb_lt 0 hz) Hhz).
  eexists. split; [reflexivity|]. by repeat split.
Qed.

Lemma overlays_of_inv (regions : list string) :
  ∀ ovs base img,
    overlays_of regions = Ok ovs →
    Raster.composite base ovs = Ok img →
    ∃ rects,
      mapM rect_of regions = Some rects
      ∧ Forall2 overlay_for rects ovs
      ∧ Forall (fits (Raster.width base) (Raster.height base)) rects.
Proof.
  induction regions as [|regionStr rest IH]; intros ovs base img.
  - intros [= <-] _. exists []. split; [reflexivity|]. split; constructor.
  - cbn [overlays_of]. unfold mbind, result_bind.
    destruct (overlay_of regionStr) as [ov|] eqn:Hov; [|done].
    destruct (overlays_of rest) as [ovs'|] eqn:Hrest; [|done].
    intros [= <-]. cbn [Raster.composite].
    destruct (JS.to_Z (Raster.left ov)) as [l|] eqn:Hl; [|done].
    destruct (JS.to_Z (Raster.top ov)) as [t|] eqn:Ht; [|done].
    destruct (_ && _) eqn:Hsize; [|done].
    apply andb_prop in Hsize as [Hw%Z.leb_le Hh%Z.leb_le].
    intros Hcomp.
    destruct (overlay_of_inv _ _ _ _ Hov Hl Ht) as (r & Hr & Hfor).
    destruct (IH _ _ _ eq_refl Hcomp) as (rects & Hrects & Hall & Hfits).
    exists (r :: rects). split; [|split].
    + apply mapM_Some. constructor; [done|by apply mapM_Some].
    + by constructor.
    + constructor; [|exact Hfits].
      destruct Hfor as (Hin & _ & _). rewrite Hin in Hw, Hh. by split.
Qed.

(** The mask of a region list denoting [rects]. *)
Lemma createMask_rects (o : opts.t) (meta : Canvas.Metadata) (w h : Z)
    (rects : list Rect) :
  JS.to_Z (canvas_of o meta).1 = Some w →
  JS.to_Z (canvas_of o meta).2 = Some h →
  0 < w → 0 < h →
  opts.regions o ≠ [] →
  mapM rect_of (opts.regions o) = Some rects →
  Forall (fits w h) rects →
  createMask o meta
  = Ok (finish (opts.invertMask o) (painted rects (blank w h Raster.black))).
Proof.
  intros Hw Hh Hwpos Hhpos Hne Hrects Hfits.
  unfold createMask, canvas_of in *.
  destruct (if JS.truthy (opts.image o) then _ else _) as [wf hf].
  cbn [fst snd] in Hw, Hh.
  rewrite !(create_ok wf hf w h _ Hw Hh Hwpos Hhpos).
  unfold mbind, result_bind.
  destruct (overlays_of_rects _ _ Hrects) as (ovs & Hovs & Hall).
  rewrite Hovs, (composite_painted _ _ Hall) by exact Hfits.
  destruct (opts.regions o) as [|regionStr rest]; [done|].
  cbn [length Nat.ltb Nat.leb]. unfold finish.
  by destruct (opts.invertMask o).
Qed.

(** The mask of an empty region list. *)
Lemma createMask_blank (o : opts.t) (meta : Canvas.Metadata) (w h : Z) :
  JS.to_Z (canvas_of o meta).1 = Some w →
  JS.to_Z (canvas_of o meta).2 = Some h →
  0 < w → 0 < h →
  opts.regions o = [] →
  createMask o meta
  = Ok (finish (opts.invertMask o) (blank w h Raster.white)).
Proof.
  intros Hw Hh Hwpos Hhpos Hnil.
  unfold createMask, canvas_of in *.
  destruct (if JS.truthy (opts.image o) then _ else _) as [wf hf].
  cbn [fst snd] in Hw, Hh.
  rewrite !(create_ok wf hf w h _ Hw Hh Hwpos Hhpos).
  unfold mbind, result_bind. rewrite Hnil. cbn [length Nat.ltb Nat.leb].
  unfold finish. by destruct (opts.invertMask o).
Qed.

(** Every mask [createMask] writes is of one of two shapes. *)
Lemma createMask_inv (o : opts.t) (meta : Canvas.Metadata)
    (mask : Raster.Image) :
  createMask o meta = Ok mask →
  ∃ w h,
    JS.to_Z (canvas_of o meta).1 = Some w
    ∧ JS.to_Z (canvas_of o meta).2 = Some h
    ∧ 0 < w ∧ 0 < h
    ∧ ((opts.regions o = []
        ∧ mask = finish (opts.invertMask o) (blank w h Raster.white))
       ∨ (opts.regions o ≠ []
          ∧ ∃ rects,
              mapM rect_of (opts.regions o) = Some rects
              ∧ Forall (fits w h) rects
              ∧ mask = finish (opts.invertMask o)
                         (painted rects (blank w h Raster.black)))).
Proof.
  intros Hmask.
  assert (Hcanvas : ∃ w h,
            JS.to_Z (canvas_of o meta).1 = Some w
            ∧ JS.to_Z (canvas_of o meta).2 = Some h ∧ 0 < w ∧ 0 < h).
  { unfold createMask, canvas_of in *.
    destruct (if JS.truthy (opts.image o) then _ else _) as [wf hf].
    cbn [fst snd]. unfold mbind, result_bind in Hmask.
    destruct (Raster.create wf hf Raster.black) as [img|] eqn:Hc; [|done].
    apply create_inv in Hc as (w & h & ? & ? & ? & ? & _). by exists w, h. }
  destruct Hcanvas as (w & h & Hw & Hh & Hwpos & Hhpos).
  exists w, h. do 4 (split; [done|]).
  destruct (opts.regions o) as [|regionStr rest] eqn:Hregions.
  - left. split; [done|].
    rewrite (createMask_blank o meta w h) in Hmask by done. congruence.
  - right. split; [done|]. rewrite <- Hregions in *.
    assert (Hne : opts.regions o ≠ []) by (by rewrite Hregions).
    assert (Hex : ∃ rects, mapM rect_of (opts.regions o) = Some rects
                            ∧ Forall (fits w h) rects).
    { unfold createMask, canvas_of in *.
      destruct (if JS.truthy (opts.image o) then _ else _) as [wf hf].
      cbn [fst snd] in Hw, Hh.
      rewrite !(create_ok wf hf w h _ Hw Hh Hwpos Hhpos) in Hmask.
      unfold mbind, result_bind in Hmask. rewrite Hregions in Hmask.
      cbn [length Nat.ltb Nat.leb] in Hmask. rewrite <- Hregions in Hmask.
      destruct (overlays_of (opts.regions o)) as [ovs|] eqn:Hovs; [|done].
      destruct (Raster.composite _ ovs) as [img|] eqn:Hcomp; [|done].
      destruct (overlays_of_inv _ _ _ _ Hovs Hcomp)
        as (rects & Hrects & _ & Hfits).
      by exists rects. }
    destruct Hex as (rects & Hrects & Hfits). exists rects.
    split; [done|]. split; [done|].
    rewrite (createMask_rects o meta w h rects) in Hmask by done. congruence.
Qed.

Lemma finish_size (invert : bool) (img : Raster.Image) :
  Raster.width (finish invert img) = Raster.width img
  ∧ Raster.height (finish invert img) = Raster.height img.
Proof. by destruct invert. Qed.

Lemma shade_two_tone (invert : bool) (c : Raster.rgb) :
  c = Raster.black ∨ c = Raster.white →
  shade invert c = Raster.black ∨ shade invert c = Raster.white.
Proof. destruct invert; intros [->| ->]; cbn; auto. Qed.

(** X17.  Whatever the options, a mask that [createMask] writes has the
    size of the canvas (positive integers) and is strictly two-tone:
    every one of its pixels is pure black or pure white, inverted or
    not, with any number of rectangles, overlapping or reaching over the
    border. *)
Theorem mask_is_black_and_white (o : opts.t) (meta : Canvas.Metadata)
    (mask : Raster.Image) :
  createMask o meta = Ok mask →
  JS.to_Z (canvas_of o meta).1 = Some (Raster.width mask)
  ∧ JS.to_Z (canvas_of o meta).2 = Some (Raster.height mask)
  ∧ 0 < Raster.width mask ∧ 0 < Raster.height mask
  ∧ ∀ px py c,
      Raster.pixelAt mask px py = Some c →
      c = Raster.black ∨ c = Raster.white.
Proof.
  intros (w & h & Hw & Hh & Hwpos & Hhpos & Hshape)%createMask_inv.
  destruct Hshape as [[_ ->]|[_ (rects & _ & _ & ->)]].
  - rewrite !(proj1 (finish_size _ _)), !(proj2 (finish_size _ _)).
    do 4 (split; [done|]). intros px py c. rewrite pixelAt_finish.
    unfold Raster.pixelAt. destruct (_ && _); [|done].
    intros [= <-]. apply shade_two_tone. by right.
  - rewrite !(proj1 (finish_size _ _)), !(proj2 (finish_size _ _)).
    rewrite !(proj1 (painted_size _ _)), !(proj2 (painted_size _ _)).
    do 4 (split; [done|]). intros px py c. rewrite pixelAt_finish.
    unfold Raster.pixelAt. destruct (_ && _); [|done].
    intros [= <-]. apply shade_two_tone. rewrite painted_px.
    destruct (existsb _ _); [by right|by left].
Qed.

Definition overlapping_args : list string :=
  ["mask"; "--width"; "8"; "--height"; "8";
   "--region"; "2,2,4,4"; "--region"; "4,5,4,2"].

Definition overlapping_rects : list Rect :=
  [ {| x := 2; y := 2; width := 4; height := 4 |};
    {| x := 4; y := 5; width := 4; height := 2 |} ].

Lemma overlapping_mask :
  createMask (Cli.parseArgs overlapping_args)
    (CanvasFacts.image 0%float 0%float)
  = Ok (finish false (painted overlapping_rects (blank 8 8 Raster.black))).
Proof.
  apply (createMask_rects (Cli.parseArgs overlapping_args)
           (CanvasFacts.image 0%float 0%float) 8 8 overlapping_rects).
  - vm_compute; reflexivity.
  - vm_compute; reflexivity.
  - reflexivity.
  - reflexivity.
  - vm_compute. discriminate.
  - vm_compute; reflexivity.
  - repeat constructor; cbn; lia.
Defined.

Lemma mask_is_black_and_white_witness :
  let o := Cli.parseArgs overlapping_args in
  let meta := CanvasFacts.image 0%float 0%float in
  let mask := finish false (painted overlapping_rects (blank 8 8 Raster.black)) in
  JS.to_Z (canvas_of o meta).1 = Some (Raster.width mask)
  ∧ JS.to_Z (canvas_of o meta).2 = Some (Raster.height mask)
  ∧ 0 < Raster.width mask ∧ 0 < Raster.height mask
  ∧ ∀ px py c,
      Raster.pixelAt mask px py = Some c →
      c = Raster.black ∨ c = Raster.white.
Proof.
  exact (mask_is_black_and_white (Cli.parseArgs overlapping_args)
           (CanvasFacts.image 0%float 0%float) _ overlapping_mask).
Defined.


Lemma existsb_perm {A : Type} (f : A → bool) (l l' : list A) :
  l ≡ₚ l' → existsb f l = existsb f l'.
Proof.
  intros Hperm. apply eq_true_iff_eq. rewrite !existsb_exists.
  split; intros (a & Hin & Ha); exists a; (split; [|done]).
  - by eapply Permutation_in.
  - eapply Permutation_in; [symmetry|]; done.
Qed.

(** X19.  The order of the [--region] flags does not matter: listing the
    same rectangles in another order gives a mask exactly when the
    original order does, of the same size and with the same pixels. *)
Theorem region_order_immaterial (o : opts.t) (meta : Canvas.Metadata)
    (regions : list string) (mask : Raster.Image) :
  regions ≡ₚ opts.regions o →
  createMask o meta = Ok mask →
  ∃ mask',
    createMask (opts.set_regions regions o) meta = Ok mask'
    ∧ Raster.width mask' = Raster.width mask
    ∧ Raster.height mask' = Raster.height mask
    ∧ ∀ px py, Raster.pixelAt mask' px py = Raster.pixelAt mask px py.
Proof.
  intros Hperm (w & h & Hw & Hh & Hwpos & Hhpos & Hshape)%createMask_inv.
  set (o' := opts.set_regions regions o).
  assert (Hcanvas : canvas_of o' meta = canvas_of o meta) by reflexivity.
  assert (Hinv : opts.invertMask o' = opts.invertMask o) by reflexivity.
  assert (Hregions : opts.regions o' = regions) by reflexivity.
  destruct Hshape as [[Hnil ->]|[Hne (rects & Hrects & Hfits & ->)]].
  - rewrite Hnil in Hperm. apply Permutation_nil_r in Hperm.
    exists (finish (opts.invertMask o) (blank w h Raster.white)).
    split; [|done]. rewrite <- Hinv.
    apply createMask_blank; rewrite ?Hcanvas; done.
  - apply mapM_Some in Hrects. symmetry in Hperm.
    destruct (Permutation_Forall2 Hperm Hrects) as (rects' & Hp & Hall).
    apply mapM_Some in Hall.
    exists (finish (opts.invertMask o) (painted rects' (blank w h Raster.black))).
    split; [|split; [|split]].
    + rewrite <- Hinv.
      apply createMask_rects; rewrite ?Hcanvas, ?Hregions; try done.
      * intros ->. apply Permutation_nil_r in Hperm. done.
      * by rewrite <- Hp.
    + by rewrite !(proj1 (finish_size _ _)), !(proj1 (painted_size _ _)).
    + by rewrite !(proj2 (finish_size _ _)), !(proj2 (painted_size _ _)).
    + intros px py. rewrite !pixelAt_finish. f_equal.
      unfold Raster.pixelAt.
      rewrite !(proj1 (painted_size _ _)), !(proj2 (painted_size _ _)).
      destruct (_ && _); [|done]. f_equal. rewrite !painted_px.
      by rewrite (existsb_perm _ _ _ Hp).
Qed.

Lemma region_order_immaterial_witness :
  ∃ mask',
    createMask
      (opts.set_regions ["4,5,4,2"; "2,2,4,4"]
         (Cli.parseArgs overlapping_args))
      (CanvasFacts.image 0%float 0%float) = Ok mask'
    ∧ Raster.width mask' = 8
    ∧ Raster.height mask' = 8
    ∧ ∀ px py,
        Raster.pixelAt mask' px py
        = Raster.pixelAt
            (finish false (painted overlapping_rects (blank 8 8 Raster.black)))
            px py.
Proof.
  apply (region_order_immaterial (Cli.parseArgs overlapping_args)
           (CanvasFacts.image 0%float 0%float)
           ["4,5,4,2"; "2,2,4,4"]
           (finish false (painted overlapping_rects (blank 8 8 Raster.black)))).
  - change (opts.regions (Cli.parseArgs overlapping_args))
      with ["2,2,4,4"; "4,5,4,2"]. apply Permutation_swap.
  - exact overlapping_mask.
Defined.

End MaskExtras.

(** ** Command line *)

Module CliFacts.
Import Cli.

(** The flags of [parseArgs] that set an option [opts.t] has no field
    for ([opts.detect], [opts.defry] and [opts.emotionLevel]).  The
    switch in [Cli.cases] stops short of them, so the statements on
    whole command lines below are about command lines without them. *)
Definition beyond : list string := ["--detect"; "--defry"; "--emotion-level"].

Definition covered (args : list string) : bool :=
  forallb (λ a, negb (includes a beyond)) args.

(** An argument list whose flags all have their value: the loop reads it
    to the end without running out of arguments inside a flag. *)
Inductive complete : list string → Prop :=
| complete_nil : complete []
| complete_switch a rest assign :
    case_of a cases = Some (Switch assign) →
    complete rest → complete (a :: rest)
| complete_valued a v rest assign :
    case_of a cases = Some (Valued assign) →
    complete rest → complete (a :: v :: rest)
| complete_bare a rest :
    case_of a cases = None →
    complete rest → complete (a :: rest).

(** What no flag assigns. *)
Definition keeps_action (assign : opts.t → opts.t) : Prop :=
  ∀ o, opts.action (assign o) = opts.action o
       ∧ opts.directorTool (assign o) = opts.directorTool o.

Definition flag_keeps_action (f : Flag) : Prop :=
  match f with
  | Switch assign => keeps_action assign
  | Valued assign => ∀ v, keeps_action (assign v)
  end.

Lemma cases_keep_action : Forall (λ c, flag_keeps_action c.2) cases.
Proof. unfold cases. repeat constructor. Qed.

Lemma case_of_elem (a : string) (f : Flag) (l : list (string * Flag)) :
  case_of a l = Some f → (a, f) ∈ l.
Proof.
  induction l as [|[name g] l IH]; cbn; [done|].
  destruct (String.eqb a name) eqn:Heq.
  - apply String.eqb_eq in Heq as ->. intros [= ->]. by left.
  - intros Hf. right. by apply IH.
Qed.

(** Induction following the loop, which moves on by one argument or by
    two. *)
Lemma args_ind (P : list string → Prop) :
  P [] →
  (∀ a rest, P rest → (∀ v after, rest = v :: after → P after) → P (a :: rest)) →
  ∀ args, P args.
Proof.
  intros Hnil Hcons args.
  enough (P args ∧ ∀ v after, args = v :: after → P after) by tauto.
  induction args as [|a rest [IH1 IH2]]; [by split|].
  split; [by apply Hcons|]. by intros v after [= -> ->].
Qed.

Lemma loop_keeps_action (args : list string) (o : opts.t) :
  opts.action (loop args o) = opts.action o
  ∧ opts.directorTool (loop args o) = opts.directorTool o.
Proof.
  revert o. induction args as [|a rest IH1 IH2] using args_ind; intros o;
    [done|].
  cbn [loop]. destruct (case_of a cases) as [[assign|assign]|] eqn:Hcase.
  - apply case_of_elem in Hcase.
    pose proof (proj1 (Forall_forall _ _) cases_keep_action _ Hcase o) as [Ha Ht].
    destruct (IH1 (assign o)) as [-> ->]. done.
  - apply case_of_elem in Hcase.
    pose proof (proj1 (Forall_forall _ _) cases_keep_action _ Hcase) as Hkeep.
    cbn in Hkeep. destruct rest as [|v after]; [apply Hkeep|].
    destruct (IH2 v after eq_refl (assign (Some v) o)) as [-> ->].
    apply Hkeep.
  - destruct (negb _ && negb _).
    + by destruct (IH1 (opts.set_prompt (Some a) o)) as [-> ->].
    + apply IH1.
Qed.

(** X7.  Whatever the arguments (none of them a flag beyond the
    options of [opts.t]), the action [parseArgs] settles on is one of the
    known actions, and a director tool is recorded only for the
    [director] action and only out of the known tools; no flag changes
    either. *)
Theorem parseArgs_action_known (argv : list string) :
  covered argv = true →
  let o := parseArgs argv in
  includes (opts.action o) ACTIONS = true
  ∧ (∀ tool, opts.directorTool o = Some tool →
       opts.action o = "director" ∧ includes tool DIRECTOR_TOOLS = true)
  ∧ (opts.action o ≠ "generate" → head argv = Some (opts.action o)).
Proof.
  intros _. cbv zeta. unfold parseArgs.
  set (p1 := match argv with
             | a :: rest => if includes a ACTIONS then (a, rest) else ("generate", argv)
             | [] => ("generate", argv)
             end).
  assert (H1 : includes p1.1 ACTIONS = true
               ∧ (p1.1 ≠ "generate" → head argv = Some p1.1)).
  { subst p1. destruct argv as [|a rest]; [done|].
    destruct (includes a ACTIONS) eqn:Ha; done. }
  destruct p1 as [action args]. cbn [fst] in H1.
  set (p2 := match args with
             | a :: rest =>
                 if String.eqb action "director" && includes a DIRECTOR_TOOLS
                 then (Some a, rest) else (None, args)
             | [] => (None, args)
             end).
  assert (H2 : ∀ tool, p2.1 = Some tool →
                 action = "director" ∧ includes tool DIRECTOR_TOOLS = true).
  { subst p2. intros tool. destruct args as [|a rest]; [done|].
    destruct (String.eqb action "director") eqn:Hd; [|done].
    destruct (includes a DIRECTOR_TOOLS) eqn:Ht; [|done].
    intros [= <-]. by apply String.eqb_eq in Hd. }
  destruct p2 as [tool args']. cbn [fst] in H2.
  destruct (loop_keeps_action args'
              (opts.set_directorTool tool (opts.set_action action opts.defaults)))
    as [-> ->].
  cbn [opts.set_directorTool opts.set_action opts.action opts.directorTool].
  tauto.
Qed.

Lemma parseArgs_action_known_witness :
  let o := parseArgs ["director"; "emotion"; "--image"; "face.png";
                      "--prompt"; "happy"] in
  includes (opts.action o) ACTIONS = true
  ∧ (∀ tool, opts.directorTool o = Some tool →
       opts.action o = "director" ∧ includes tool DIRECTOR_TOOLS = true)
  ∧ (opts.action o ≠ "generate"
     → head ["director"; "emotion"; "--image"; "face.png"; "--prompt"; "happy"]
       = Some (opts.action o)).
Proof.
  apply (parseArgs_action_known
           ["director"; "emotion"; "--image"; "face.png"; "--prompt"; "happy"]).
  reflexivity.
Defined.

(** The loop over a complete argument list composes with what follows. *)
Lemma loop_app (xs : list string) :
  complete xs → ∀ ys o, loop (xs ++ ys) o = loop ys (loop xs o).
Proof.
  induction 1 as [|a rest assign Hcase _ IH|a v rest assign Hcase _ IH
                  |a rest Hcase _ IH]; intros ys o; [done|..];
    cbn [app loop]; rewrite Hcase; [apply IH..|].
  destruct (negb _ && negb _); apply IH.
Qed.

(** X8.  Flags are applied from left to right: after any complete run of
    arguments (none of them a flag beyond the options of [opts.t]), a
    further [--width v] decides the width (the last one
    wins), a further [--region r] is added behind the regions collected
    so far, and a further [--vibe-strength s] behind the strengths. *)
Theorem flags_left_to_right (xs : list string) (o : opts.t) (v : string) :
  covered xs = true →
  complete xs →
  opts.width (loop (xs ++ ["--width"; v]) o) = JS.Number v
  ∧ opts.regions (loop (xs ++ ["--region"; v]) o)
    = opts.regions (loop xs o) ++ [v]
  ∧ opts.vibeStrengths (loop (xs ++ ["--vibe-strength"; v]) o)
    = opts.vibeStrengths (loop xs o) ++ [JS.Number v]
  ∧ opts.prompt (loop (xs ++ ["--prompt"; v]) o) = Some v.
Proof.
  intros _ Hxs. rewrite !loop_app by done. by repeat split.
Qed.

Lemma flags_left_to_right_witness :
  opts.width (loop (["--width"; "512"; "--smea"; "1girl"] ++ ["--width"; "1024"])
                opts.defaults) = JS.Number "1024"
  ∧ opts.regions (loop (["--width"; "512"; "--smea"; "1girl"] ++ ["--region"; "1024"])
                    opts.defaults)
    = opts.regions (loop ["--width"; "512"; "--smea"; "1girl"] opts.defaults)
      ++ ["1024"]
  ∧ opts.vibeStrengths
      (loop (["--width"; "512"; "--smea"; "1girl"] ++ ["--vibe-strength"; "1024"])
         opts.defaults)
    = opts.vibeStrengths (loop ["--width"; "512"; "--smea"; "1girl"] opts.defaults)
      ++ [JS.Number "1024"]
  ∧ opts.prompt (loop (["--width"; "512"; "--smea"; "1girl"] ++ ["--prompt"; "1024"])
                   opts.defaults) = Some "1024".
Proof.
  apply (flags_left_to_right ["--width"; "512"; "--smea"; "1girl"]
           opts.defaults "1024"); [reflexivity|].
  eapply complete_valued; [reflexivity|].
  eapply complete_switch; [reflexivity|].
  apply complete_bare; [reflexivity|]. constructor.
Defined.

(** X9.  Numeric flags are not validated.  A value that is not a number,
    or a flag left without a value at the end of the line, makes the
    option NaN, and the payload is built with that NaN. *)
Theorem numeric_flags_unchecked (xs : list string) (o : opts.t) (v : string)
    (random : JS.number) :
  covered xs = true →
  complete xs →
  (is_nan (JS.Number v) = true →
   Payload.param "width"
     (Payload.buildGeneratePayload (loop (xs ++ ["--width"; v]) o) None random)
   = Some (VNum nan))
  ∧ opts.width (loop (xs ++ ["--width"]) o) = nan
  ∧ Payload.param "width"
      (Payload.buildGeneratePayload (loop (xs ++ ["--width"]) o) None random)
    = Some (VNum nan).
Proof.
  intros _ Hxs. rewrite !loop_app by done. split; [|by split].
  intros Hnan%FloatFacts.is_nan_eq.
  change (Payload.param "width"
            (Payload.buildGeneratePayload (loop ["--width"; v] (loop xs o)) None random))
    with (Some (VNum (JS.Number v))).
  by rewrite Hnan.
Qed.

Lemma numeric_flags_unchecked_witness :
  Payload.param "width"
    (Payload.buildGeneratePayload
       (loop (["--prompt"; "1girl"] ++ ["--width"; "wide"]) opts.defaults)
       None 0.5%float)
  = Some (VNum nan).
Proof.
  refine (proj1 (numeric_flags_unchecked ["--prompt"; "1girl"] opts.defaults
                   "wide" 0.5%float _ _) _).
  - reflexivity.
  - eapply complete_valued; [reflexivity|constructor].
  - vm_compute. reflexivity.
Defined.

(** [Number] strips the white space of the language, of one byte or of
    more: here a no-break space in front and a byte order mark behind. *)
Example number_strips_white_space :
  JS.Number (String (ascii_of_nat 194) (String (ascii_of_nat 160)
               (String "5" (String (ascii_of_nat 239) (String (ascii_of_nat 187)
                  (String (ascii_of_nat 191) EmptyString))))))
  = 5%float.
Proof. vm_compute. reflexivity. Qed.

End CliFacts.

(** ** Environment file *)

Module EnvFacts.
Import Env.

Lemma truthy_Some (v : string) : v ≠ "" → JS.truthy (Some v) = true.
Proof. by destruct v. Qed.

Lemma define_keeps (env : gmap string string) (kv : string * string)
    (k v : string) :
  env !! k = Some v → v ≠ "" → define env kv !! k = Some v.
Proof.
  intros Hk Hv. unfold define.
  destruct (is_set env kv.1) eqn:Ht; [done|].
  destruct (decide (kv.1 = k)) as [Heq|Hne].
  - unfold is_set in Ht. rewrite Heq, Hk, truthy_Some in Ht; done.
  - by rewrite lookup_insert_ne.
Qed.

Lemma step_keeps (env : gmap string string) (line k v : string) :
  env !! k = Some v → v ≠ "" → step env line !! k = Some v.
Proof.
  intros Hk Hv. unfold step.
  destruct (parse_line line); [by apply define_keeps|done].
Qed.

Lemma fold_keeps (lines : list string) (env : gmap string string)
    (k v : string) :
  env !! k = Some v → v ≠ "" → fold_left step lines env !! k = Some v.
Proof.
  revert env. induction lines as [|line lines IH]; intros env Hk Hv; [done|].
  cbn [fold_left]. apply IH; [by apply step_keeps|done].
Qed.

(** X10.  A variable that is already set, and not empty, in the process
    environment keeps its value whatever the [.env] file says. *)
Theorem environment_wins (file : option string) (env : gmap string string)
    (k v : string) :
  env !! k = Some v →
  v ≠ "" →
  loadEnv file env !! k = Some v.
Proof.
  intros Hk Hv. destruct file as [text|]; [|done].
  by apply fold_keeps.
Qed.

Definition env_text : string :=
  "# keys" ++ String LF ("NOVELAI_API_KEY=" ++ String LF
    ("NOVELAI_API_KEY='pst-abc'" ++ String LF ("NOVELAI_API_KEY=other"
     ++ String LF "  GEMINI_API_KEY = g-1  "))).

Lemma environment_wins_witness :
  loadEnv (Some env_text) {[ "GEMINI_API_KEY" := "from-shell" ]}
    !! "GEMINI_API_KEY" = Some "from-shell".
Proof.
  apply (environment_wins (Some env_text) {[ "GEMINI_API_KEY" := "from-shell" ]}
           "GEMINI_API_KEY" "from-shell"); [reflexivity|discriminate].
Defined.

Example env_text_loaded :
  loadEnv (Some env_text) ∅
  = {[ "NOVELAI_API_KEY" := "pst-abc"; "GEMINI_API_KEY" := "g-1" ]}.
Proof. vm_compute. reflexivity. Qed.

(** A variable given the empty string is still not set. *)
Lemma is_set_empty (env : gmap string string) (k : string) :
  is_set (<[k := ""]> env) k = false.
Proof. unfold is_set. by rewrite lookup_insert_eq. Qed.

Lemma is_set_other (env : gmap string string) (k k' v : string) :
  k' ≠ k → is_set (<[k' := v]> env) k = is_set env k.
Proof. intros Hne. unfold is_set. by rewrite lookup_insert_ne. Qed.

(** Lines that leave [k] unset or empty. *)
Lemma fold_stays_unset (lines : list string) (env : gmap string string)
    (k : string) :
  is_set env k = false →
  (∀ line v, line ∈ lines → parse_line line = Some (k, v) → v = "") →
  is_set (fold_left step lines env) k = false.
Proof.
  revert env. induction lines as [|line lines IH]; intros env Hk Hdefs; [done|].
  cbn [fold_left]. apply IH.
  - unfold step. destruct (parse_line line) as [[k' v']|] eqn:Hp; [|done].
    unfold define. cbn [fst snd].
    destruct (is_set env k') eqn:Ht; [done|].
    destruct (decide (k' = k)) as [->|Hne].
    + rewrite (Hdefs line v' ltac:(by left) Hp). apply is_set_empty.
    + by rewrite is_set_other.
  - intros l v Hl. apply Hdefs. by right.
Qed.

(** The byte order mark, which [trim] takes for white space. *)
Definition BOM : string :=
  String (ascii_of_nat 239) (String (ascii_of_nat 187)
    (String (ascii_of_nat 191) EmptyString)).

(** A line behind a byte order mark is read as if the mark were not
    there; a name every object inherits is not defined by the file,
    unless the environment has it as an empty variable. *)
Example line_behind_mark :
  parse_line (BOM ++ "NOVELAI_API_KEY=pst-abc") = Some ("NOVELAI_API_KEY", "pst-abc").
Proof. vm_compute. reflexivity. Qed.

Example inherited_name_not_defined :
  loadEnv (Some "toString=abc") ∅ = ∅
  ∧ loadEnv (Some "toString=abc") {[ "toString" := "" ]}
    = {[ "toString" := "abc" ]}.
Proof. split; vm_compute; reflexivity. Qed.

(** X11.  For a variable that [process.env] does not show as set (no
    non-empty value in the environment, and not one of the names every
    object inherits, such as [toString]), the first line of the file
    that gives it a non-empty value decides: later lines for the same
    variable change nothing. *)
Theorem first_definition_wins (text : string) (env : gmap string string)
    (before after : list string) (line k v : string) :
  JS.split LF text = before ++ line :: after →
  parse_line line = Some (k, v) →
  v ≠ "" →
  is_set env k = false →
  (∀ l v', l ∈ before → parse_line l = Some (k, v') → v' = "") →
  loadEnv (Some text) env !! k = Some v.
Proof.
  intros Hsplit Hline Hv Hk Hbefore. cbn [loadEnv].
  rewrite Hsplit, fold_left_app. cbn [fold_left].
  apply fold_keeps; [|done].
  pose proof (fold_stays_unset before env k Hk Hbefore) as Hunset.
  unfold step at 1. rewrite Hline. unfold define. cbn [fst snd].
  rewrite Hunset. apply lookup_insert_eq.
Qed.

Lemma first_definition_wins_witness :
  loadEnv (Some env_text) ∅ !! "NOVELAI_API_KEY" = Some "pst-abc".
Proof.
  apply (first_definition_wins env_text ∅
           ["# keys"; "NOVELAI_API_KEY="]
           ["NOVELAI_API_KEY=other"; "  GEMINI_API_KEY = g-1  "]
           "NOVELAI_API_KEY='pst-abc'" "NOVELAI_API_KEY" "pst-abc").
  - vm_compute. reflexivity.
  - vm_compute. reflexivity.
  - discriminate.
  - reflexivity.
  - intros l v' Hl Hp. rewrite !elem_of_cons, elem_of_nil in Hl.
    destruct Hl as [->|[->|[]]]; vm_compute in Hp; congruence.
Defined.

End EnvFacts.

(** ** Director requests *)

Module DirectorFacts.
Import Director.

(** X12.  The director request always carries the image, the tool and
    the command-line width and height (832 × 1216 unless given; the
    size of the image itself is not read).  Only [colorize] and [emotion]
    send anything else: the other tools get no prompt even when one was
    given; [emotion] always sends a prompt, "neutral" when none was
    given, and sends [opts.emotionLevel] as its [defry]; [colorize] sends
    [opts.defry] and the prompt only when there is one. *)
Theorem director_body_fields (tool imageBase64 : string) (o : opts.t)
    (l : Levels) :
  let b := body tool imageBase64 o l in
  (b !! "image" = Some (VStr imageBase64)
   ∧ b !! "width" = Some (VNum (opts.width o))
   ∧ b !! "height" = Some (VNum (opts.height o))
   ∧ b !! "req_type" = Some (VStr tool))
  ∧ (tool ≠ "colorize" → tool ≠ "emotion" →
     b !! "prompt" = None ∧ b !! "defry" = None)
  ∧ (tool = "emotion" →
     b !! "prompt" = Some (VStr (or_else (opts.prompt o) "neutral"))
     ∧ b !! "defry" = Some (VNum (emotionLevel l)))
  ∧ (tool = "colorize" →
     b !! "defry" = Some (VNum (defry l))
     ∧ b !! "prompt"
       = if JS.truthy (opts.prompt o)
         then Some (Json.of_string_or_null (opts.prompt o)) else None).
Proof.
  cbv zeta. unfold body.
  destruct (String.eqb tool "colorize") eqn:Hc;
    destruct (String.eqb tool "emotion") eqn:He.
  - apply String.eqb_eq in Hc, He. congruence.
  - apply String.eqb_eq in Hc. apply String.eqb_neq in He.
    destruct (JS.truthy (opts.prompt o)); (split; [done|]);
      (split; [done|]); (split; [done|]); done.
  - apply String.eqb_neq in Hc. apply String.eqb_eq in He.
    (split; [done|]); (split; [done|]); (split; [done|]); done.
  - apply String.eqb_neq in Hc, He.
    (split; [done|]); (split; [done|]); (split; [done|]); done.
Qed.

End DirectorFacts.

(** ** The revision with a fallback *)

Module RevisionFacts.
Import Transport.

(** X13.  In the revision kept in [part_001] the director branch cannot
    fail on the response: it writes the data of the first [*.png] entry
    when the response is an archive holding one, and the response bytes
    as they came in every other case, be it no archive at all or an
    archive without an image.  Whenever the current [director_output]
    succeeds, both revisions write the same data. *)
Theorem revision1_director_falls_back (response : Buffer) :
  (∀ entries png,
     getEntries response = Some entries →
     List.find (λ e, endsWith (entryName e) ".png") entries = Some png →
     Revision1.director_output response = getData png)
  ∧ (getEntries response = None →
     Revision1.director_output response = bytes response)
  ∧ (∀ entries,
       getEntries response = Some entries →
       Forall (λ e, endsWith (entryName e) ".png" = false) entries →
       Revision1.director_output response = bytes response)
  ∧ (∀ pngData,
       director_output response = Ok pngData →
       Revision1.director_output response = pngData).
Proof.
  unfold Revision1.director_output, director_output, extractPng.
  unfold mbind, result_bind. repeat split.
  - by intros entries png -> ->.
  - by intros ->.
  - intros entries -> Hall.
    destruct (List.find _ entries) as [png|] eqn:Hfind; [|done].
    apply find_some in Hfind as [Hin Hpng].
    rewrite Forall_forall in Hall. apply list_elem_of_In in Hin.
    by rewrite (Hall _ Hin) in Hpng.
  - intros pngData. destruct (getEntries response) as [entries|]; [|done].
    destruct (List.find _ entries); [by intros [= ->]|done].
Qed.

End RevisionFacts.

(** ** Dispatch *)

Module MainFacts.
Import Main.
#[local] Set Warnings "-clear-no-such-hyp".

(** The steps in which [main] builds a payload for the generation
    endpoint. *)
Definition builds_payload (step : Step) : Prop :=
  step = Vibe ∨ step = Enhance ∨ step = Inpaint ∨ step = Generate.

Lemma eqb_false_ne (a b : string) : String.eqb a b = false → a ≠ b.
Proof. by intros ?%String.eqb_neq. Qed.

Lemma plan_facts (o : opts.t) (NOVELAI_API_KEY GEMINI_API_KEY : option string) :
  let step := plan o NOVELAI_API_KEY GEMINI_API_KEY in
  (builds_payload step ∨ (∃ tool, step = Director tool) →
     JS.truthy NOVELAI_API_KEY = true)
  ∧ (step = Analyze →
       JS.truthy GEMINI_API_KEY = true ∧ JS.truthy (opts.image o) = true)
  ∧ (opts.help o = false → opts.action o = "mask" → step = Mask)
  ∧ (step = Vibe ∨ step = Inpaint ∨ step = Generate →
       JS.truthy (opts.prompt o) = true)
  ∧ (step = Enhance → JS.truthy (opts.image o) = true)
  ∧ (step = Inpaint →
       JS.truthy (opts.image o) = true ∧ JS.truthy (opts.mask o) = true)
  ∧ (step = Vibe → opts.vibes o ≠ [])
  ∧ (∀ tool, step = Director tool →
       opts.directorTool o = Some tool ∧ JS.truthy (opts.image o) = true).
Proof.
  cbv zeta. unfold plan, builds_payload.
  destruct (opts.help o); [naive_solver|].
  destruct (String.eqb (opts.action o) "mask") eqn:Hmask.
  { naive_solver. }
  apply eqb_false_ne in Hmask.
  destruct (String.eqb (opts.action o) "analyze").
  { destruct (JS.truthy (opts.image o)); cbn [negb]; [|naive_solver].
    destruct (JS.truthy GEMINI_API_KEY); cbn [negb]; naive_solver. }
  destruct (JS.truthy NOVELAI_API_KEY); cbn [negb]; [|naive_solver].
  destruct (String.eqb (opts.action o) "director").
  { destruct (opts.directorTool o) as [[|c tool]|]; [naive_solver| |naive_solver].
    destruct (JS.truthy (opts.image o)); cbn [negb]; naive_solver. }
  destruct (JS.truthy (opts.prompt o)); cbn [negb andb].
  - destruct (String.eqb (opts.action o) "vibe").
    { destruct (opts.vibes o); cbn; naive_solver. }
    destruct (String.eqb (opts.action o) "enhance").
    { destruct (JS.truthy (opts.image o)); cbn [negb]; naive_solver. }
    destruct (String.eqb (opts.action o) "inpaint"); [|naive_solver].
    destruct (JS.truthy (opts.image o)), (JS.truthy (opts.mask o));
      cbn [negb orb]; naive_solver.
  - destruct (String.eqb (opts.action o) "enhance") eqn:Henh; cbn [negb];
      [|naive_solver].
    apply String.eqb_eq in Henh. rewrite Henh. cbn.
    destruct (JS.truthy (opts.image o)); cbn [negb]; naive_solver.
Qed.

(** X14.  What [main] has checked by the time it acts.  No request of
    any kind is built without the NovelAI key, and no analysis without
    the Gemini key; mask creation needs neither.  A generate, vibe or
    inpaint payload is only built with a non-empty prompt, while enhance
    goes ahead without one; enhance and inpaint have their image (and
    inpaint its mask), vibe has at least one reference, and a director
    step has its tool and image. *)
Theorem main_checks (o : opts.t) (NOVELAI_API_KEY GEMINI_API_KEY : option string) :
  let step := plan o NOVELAI_API_KEY GEMINI_API_KEY in
  (builds_payload step ∨ (∃ tool, step = Director tool) →
     JS.truthy NOVELAI_API_KEY = true)
  ∧ (step = Analyze →
       JS.truthy GEMINI_API_KEY = true ∧ JS.truthy (opts.image o) = true)
  ∧ (opts.help o = false → opts.action o = "mask" → step = Mask)
  ∧ (step = Vibe ∨ step = Inpaint ∨ step = Generate →
       JS.truthy (opts.prompt o) = true)
  ∧ (step = Enhance → JS.truthy (opts.image o) = true)
  ∧ (step = Inpaint →
       JS.truthy (opts.image o) = true ∧ JS.truthy (opts.mask o) = true)
  ∧ (step = Vibe → opts.vibes o ≠ [])
  ∧ (∀ tool, step = Director tool →
       opts.directorTool o = Some tool ∧ JS.truthy (opts.image o) = true).
Proof. apply plan_facts. Qed.

Example enhance_runs_without_prompt :
  plan (Cli.parseArgs ["enhance"; "--image"; "gen.png"]) (Some "pst-key") None
  = Enhance.
Proof. reflexivity. Qed.

Example generate_needs_prompt :
  plan (Cli.parseArgs ["--ref"; "style.png"]) (Some "pst-key") None
  = Exit "Error: --prompt is required. Use --help for usage.".
Proof. reflexivity. Qed.

End MainFacts.

(** ** From dispatch to payload *)

Module MainPayloadFacts.
Import Main MainFacts Payload PayloadFacts.
#[local] Open Scope float_scope.

Lemma payload_inv (o : opts.t) (nk gk : option string) (fs : Files)
    (random : JS.number) (p : Payload.t) :
  Main.payload o nk gk fs random = Some p →
  ∃ req, request o fs (plan o nk gk) = Some req ∧ p = build o req random.
Proof.
  unfold Main.payload. destruct (request _ _ _) as [req|]; [|done].
  intros [= <-]. by exists req.
Qed.

(** X15.  Every payload [main] sends for generate, vibe or inpaint holds
    one and the same non-empty prompt text in [input] and in
    [v4_prompt.caption.base_caption]; only an enhance payload
    ([img2img]) can go out without one. *)
Theorem sent_prompt_in_both_places (o : opts.t) (nk gk : option string)
    (fs : Files) (random : JS.number) (p : Payload.t) :
  Main.payload o nk gk fs random = Some p →
  Payload.action p ≠ "img2img" →
  ∃ text,
    text ≠ ""
    ∧ opts.prompt o = Some text
    ∧ prompt_flat p = VStr text
    ∧ prompt_caption p = Some (VStr text).
Proof.
  intros (req & Hreq & ->)%payload_inv Haction.
  destruct (plan_facts o nk gk) as (_ & _ & _ & Hprompt & _).
  assert (Htruthy : JS.truthy (opts.prompt o) = true).
  { apply Hprompt. destruct (plan o nk gk); try done; auto.
    injection Hreq as <-. by destruct Haction. }
  destruct (opts.prompt o) as [[|c text]|] eqn:Hp; try done.
  exists (String c text). split; [done|]. split; [done|]. split.
  - unfold prompt_flat. destruct req; cbn; by rewrite Hp.
  - unfold prompt_caption. rewrite build_frame by (destruct req; not_written).
    unfold baseParams. rewrite Hp. reflexivity.
Qed.

Definition files : Files :=
  {| loadImageBase64 := String.append "b64:";
     prepareReferenceImage := String.append "ref:";
     metadata := λ _, {| Canvas.format := "png"; Canvas.width := 832;
                         Canvas.height := 1216; Canvas.channels := 3;
                         Canvas.hasAlpha := false |} |}.

Lemma sent_prompt_in_both_places_witness :
  ∃ text,
    text ≠ ""
    ∧ opts.prompt (Cli.parseArgs ["1girl, solo"; "--ref"; "style.png"])
      = Some text
    ∧ prompt_flat
        (build (Cli.parseArgs ["1girl, solo"; "--ref"; "style.png"])
           (Generate (Some "ref:style.png")) 0.5) = VStr text
    ∧ prompt_caption
        (build (Cli.parseArgs ["1girl, solo"; "--ref"; "style.png"])
           (Generate (Some "ref:style.png")) 0.5) = Some (VStr text).
Proof.
  apply (sent_prompt_in_both_places
           (Cli.parseArgs ["1girl, solo"; "--ref"; "style.png"])
           (Some "pst-key") None files 0.5); [reflexivity|discriminate].
Defined.

Lemma generate_arrays_present (o : opts.t) (refBase64 : string)
    (random : JS.number) (k : string) :
  refBase64 ≠ "" →
  k ∈ director_reference_arrays →
  param_length k (buildGeneratePayload o (Some refBase64) random) = Some 1%nat.
Proof.
  intros Href. unfold director_reference_arrays.
  rewrite !elem_of_cons, elem_of_nil.
  unfold param_length, param, buildGeneratePayload.
  destruct refBase64 as [|c r]; [done|]. cbn [JS.truthy parameters].
  intros [->|[->|[->|[->|[->|[]]]]]]; reflexivity.
Qed.

(** X16.  The reference arrays follow the flags.  A vibe payload sent by
    [main] has, in each of its three arrays, exactly one entry per
    [--vibe] flag, and at least one.  A generate payload has its five
    [director_reference_*] arrays, of length one, when [--ref] was given
    (and its prepared image is not empty), and none of them when it was
    not. *)
Theorem sent_arrays_follow_flags (o : opts.t) (nk gk : option string)
    (fs : Files) (random : JS.number) (p : Payload.t) :
  Main.payload o nk gk fs random = Some p →
  (plan o nk gk = Main.Vibe →
     opts.vibes o ≠ []
     ∧ ∀ k, k ∈ vibe_arrays →
            param_length k p = Some (length (opts.vibes o)))
  ∧ (plan o nk gk = Main.Generate →
     (JS.truthy (opts.ref o) = true →
      prepareReferenceImage fs (JS.or_empty (opts.ref o)) ≠ "" →
      ∀ k, k ∈ director_reference_arrays → param_length k p = Some 1%nat)
     ∧ (JS.truthy (opts.ref o) = false →
        ∀ k, k ∈ director_reference_arrays → param k p = None)).
Proof.
  intros (req & Hreq & ->)%payload_inv. split.
  - intros Hplan. rewrite Hplan in Hreq. injection Hreq as <-.
    destruct (plan_facts o nk gk) as (_ & _ & _ & _ & _ & _ & Hvibes & _).
    split; [by apply Hvibes|].
    intros k Hk. cbn [build]. rewrite vibe_arrays_length by done.
    by rewrite length_fmap.
  - intros Hplan. rewrite Hplan in Hreq. injection Hreq as <-. cbn [build].
    split.
    + intros Href Hdata k Hk. rewrite Href. by apply generate_arrays_present.
    + intros Href k. rewrite Href.
      unfold param, buildGeneratePayload. cbn [JS.truthy parameters].
      unfold director_reference_arrays. rewrite !elem_of_cons, elem_of_nil.
      intros [->|[->|[->|[->|[->|[]]]]]]; reflexivity.
Qed.

Lemma sent_arrays_follow_flags_witness :
  let o := Cli.parseArgs ["vibe"; "--prompt"; "1girl"; "--vibe"; "a.png";
                          "--vibe"; "b.png"; "--vibe-strength"; "0.8"] in
  opts.vibes o ≠ []
  ∧ ∀ k, k ∈ vibe_arrays →
         param_length k (build o (Vibe ["ref:a.png"; "ref:b.png"]) 0.5)
         = Some (length (opts.vibes o)).
Proof.
  refine (proj1 (sent_arrays_follow_flags
            (Cli.parseArgs ["vibe"; "--prompt"; "1girl"; "--vibe"; "a.png";
                            "--vibe"; "b.png"; "--vibe-strength"; "0.8"])
            (Some "pst-key") None files 0.5
            (build (Cli.parseArgs ["vibe"; "--prompt"; "1girl"; "--vibe";
                                   "a.png"; "--vibe"; "b.png";
                                   "--vibe-strength"; "0.8"])
               (Vibe ["ref:a.png"; "ref:b.png"]) 0.5) _) _).
  - vm_compute. reflexivity.
  - vm_compute. reflexivity.
Defined.

End MainPayloadFacts.
